(** * DBBox: the schema codec, the database manager and the result formatter

    A shallow embedding of [dbbox/manager.py] and of the parts of
    [dbbox/cli.py] that format results (as a table, CSV, JSON and JSON
    Lines), import records, update a row, drop a table and pick the
    operation to run.

    Conventions of the embedding.
    - A Python [str] is a [string]; case mapping ([lower], [upper]) and the
      white space of [strip] and [split] are the ASCII ones.
    - A Python [int] is a [Z]; row ids are taken inside the signed 64-bit
      range of the engine, where binding them cannot fail.
    - [ValueError] and [RuntimeError] are the two constructors of
      [py_error]; an exception that the manager does not convert is
      [Uncaught].
    - The embedded SQL engine is not part of the repository.  Module
      [Sqlite] is a reference semantics of the eight statement shapes the
      manager sends, over an in-memory catalogue; what the manager cannot
      see of the engine (its tokenizer, its reading of a column
      definition, type affinity) is a parameter, [Sqlite.rules].
    - [json.dumps] is not part of the repository either.  Module [Json]
      is its writing of a text with [ensure_ascii=False]. *)

From Stdlib Require Import List String Ascii ZArith Bool Arith Lia.
From Stdlib Require Import Numbers.DecimalString.
Import ListNotations.

Local Open Scope string_scope.
Local Open Scope list_scope.

(** ** Python string primitives used by the source *)

Module Py.

Definition is_upper (c : ascii) : bool :=
  ((65 <=? nat_of_ascii c) && (nat_of_ascii c <=? 90))%nat.

Definition is_lower (c : ascii) : bool :=
  ((97 <=? nat_of_ascii c) && (nat_of_ascii c <=? 122))%nat.

Definition lower_char (c : ascii) : ascii :=
  if is_upper c then ascii_of_nat (nat_of_ascii c + 32) else c.

Definition upper_char (c : ascii) : ascii :=
  if is_lower c then ascii_of_nat (nat_of_ascii c - 32) else c.

Fixpoint map_string (f : ascii -> ascii) (s : string) : string :=
  match s with
  | EmptyString => EmptyString
  | String c s' => String (f c) (map_string f s')
  end.

(** [s.lower()] and [s.upper()] *)
Definition lower : string -> string := map_string lower_char.
Definition upper : string -> string := map_string upper_char.

(** [s.startswith(p)] *)
Fixpoint startswith (s p : string) {struct p} : bool :=
  match p with
  | EmptyString => true
  | String b p' =>
      match s with
      | EmptyString => false
      | String a s' => Ascii.eqb a b && startswith s' p'
      end
  end.

(** [c in s] for a one-character [c] *)
Fixpoint contains (c : ascii) (s : string) : bool :=
  match s with
  | EmptyString => false
  | String d s' => Ascii.eqb d c || contains c s'
  end.

(** The text before the first [c] and the text after it; [None] when [c]
    does not occur. *)
Fixpoint split_once (c : ascii) (s : string) : option (string * string) :=
  match s with
  | EmptyString => None
  | String d s' =>
      if Ascii.eqb d c then Some (EmptyString, s')
      else match split_once c s' with
           | Some (a, b) => Some (String d a, b)
           | None => None
           end
  end.

(** [s.split(c, 1)]: one part when [c] does not occur, two otherwise. *)
Definition split1 (c : ascii) (s : string) : list string :=
  match split_once c s with
  | Some (a, b) => [a; b]
  | None => [s]
  end.

(** [sep.join(parts)] *)
Fixpoint join (sep : string) (parts : list string) : string :=
  match parts with
  | [] => ""
  | [p] => p
  | p :: ps => (p ++ sep ++ join sep ps)%string
  end.

(** [s.replace(c, by)] for a one-character [c] *)
Fixpoint replace (c : ascii) (by_ : string) (s : string) : string :=
  match s with
  | EmptyString => EmptyString
  | String d s' =>
      if Ascii.eqb d c then (by_ ++ replace c by_ s')%string
      else String d (replace c by_ s')
  end.

(** White space of [str.strip()] and [str.split()]: tab, line feed,
    vertical tab, form feed, carriage return, the four separators
    0x1c..0x1f and the space. *)
Definition is_space (c : ascii) : bool :=
  let n := nat_of_ascii c in
  (((9 <=? n) && (n <=? 13)) || ((28 <=? n) && (n <=? 31)) || (n =? 32))%nat.

Fixpoint lstrip (s : string) : string :=
  match s with
  | EmptyString => EmptyString
  | String c s' => if is_space c then lstrip s' else s
  end.

Fixpoint rstrip (s : string) : string :=
  match s with
  | EmptyString => EmptyString
  | String c s' =>
      match rstrip s' with
      | EmptyString => if is_space c then EmptyString else String c EmptyString
      | r => String c r
      end
  end.

(** [s.strip()] *)
Definition strip (s : string) : string := rstrip (lstrip s).

(** [s.split()]: the maximal runs of characters that are not white
    space, in order.  [cur] is the run being read, reversed. *)
Fixpoint split_ws_aux (cur : list ascii) (s : string) : list string :=
  let flush := match cur with
               | [] => []
               | _ => [string_of_list_ascii (rev cur)]
               end in
  match s with
  | EmptyString => flush
  | String c s' =>
      if is_space c then flush ++ split_ws_aux [] s'
      else split_ws_aux (c :: cur) s'
  end.

Definition split (s : string) : list string := split_ws_aux [] s.

(** [str(n)] for a natural number and for an integer *)
Definition str_nat (n : nat) : string := NilEmpty.string_of_uint (Nat.to_uint n).
Definition str_int (z : Z) : string := NilZero.string_of_int (Z.to_int z).

End Py.

(** ** [json.dumps] on text, with [ensure_ascii=False] *)

Module Json.

Definition backslash : ascii := "092"%char.
Definition quote : ascii := "034"%char.

Definition hex_digit (n : nat) : ascii :=
  nth n ["0"; "1"; "2"; "3"; "4"; "5"; "6"; "7"; "8"; "9";
         "a"; "b"; "c"; "d"; "e"; "f"]%char "0"%char.

(** The replacement of one character by [encode_basestring]: the
    backslash, the double quote and the control characters below 0x20
    are escaped, every other character stands for itself. *)
Definition escape_char (c : ascii) : string :=
  let n := nat_of_ascii c in
  if (n =? 92)%nat then String backslash (String backslash "")
  else if (n =? 34)%nat then String backslash (String quote "")
  else if (n =? 8)%nat then String backslash "b"
  else if (n =? 12)%nat then String backslash "f"
  else if (n =? 10)%nat then String backslash "n"
  else if (n =? 13)%nat then String backslash "r"
  else if (n =? 9)%nat then String backslash "t"
  else if (n <? 32)%nat then
    String backslash
      (String "u" (String "0" (String "0"
         (String (hex_digit (n / 16)) (String (hex_digit (n mod 16)) "")))))
  else String c "".

Fixpoint escape (s : string) : string :=
  match s with
  | EmptyString => EmptyString
  | String c s' => (escape_char c ++ escape s')%string
  end.

(** [json.dumps(s, ensure_ascii=False)] for a [str] *)
Definition dumps_str (s : string) : string :=
  String quote (escape s ++ String quote "").

End Json.

(** ** Exceptions *)

(** The classes of [sqlite3.Error] a statement can raise, with the
    engine's message. *)
Inductive sqlite_error :=
| OperationalError (msg : string)
| IntegrityError (msg : string)
| ProgrammingError (msg : string).

(** The text of an exception, [str(e)].  [repr] of a list of names is
    kept as the list. *)
Inductive message :=
| Text (s : string)
| Expected (n : nat) (columns : list string) (got : nat)
    (* f"Expected {n} values for columns {columns}, got {got}" *)
| Engine (what : string) (e : sqlite_error).
    (* f"{what}: {e}" *)

Inductive py_error :=
| ValueError (m : message)
| RuntimeError (m : message)
| Uncaught (e : sqlite_error).

(** ** Schema codec: the first half of [DBManager.create_table] *)

Definition id_column : string := "id INTEGER PRIMARY KEY AUTOINCREMENT".

Definition invalid_schema_format (col_def : string) : string :=
  ("Invalid schema format '" ++ col_def ++ "'. Use 'column:TYPE'")%string.

(** The loop [for col_def in schema], [columns] being the list built so
    far. *)
Fixpoint parse_schema (schema : list string) (columns : list string)
  : py_error + list string :=
  match schema with
  | [] => inr columns
  | col_def :: rest =>
      if negb (Py.contains ":"%char col_def) then
        inl (ValueError (Text (invalid_schema_format col_def)))
      else
        match Py.split1 ":"%char col_def with
        | [col_name; col_type] =>
            parse_schema rest
              (columns ++ [(col_name ++ " " ++ Py.upper col_type)%string])
        | _ => inl (ValueError
                      (Text "not enough values to unpack (expected 2, got 1)"))
        end
  end.

(** [c.lower().startswith('id ')] *)
Definition declares_id (c : string) : bool := Py.startswith (Py.lower c) "id ".

(** The column definitions [create_table] hands to the engine. *)
Definition schema_columns (schema : list string) : py_error + list string :=
  match parse_schema schema [] with
  | inl e => inl e
  | inr columns =>
      if negb (existsb declares_id columns)
      then inr (id_column :: columns)
      else inr columns
  end.

(** ** Reference semantics of the engine *)

Module Sqlite.

(** A stored or bound value.  The manager binds text and integers only;
    REAL and BLOB values are left out of the model. *)
Inductive value :=
| VNull
| VInt (n : Z)
| VText (s : string).

Definition value_eqb (a b : value) : bool :=
  match a, b with
  | VNull, VNull => true
  | VInt x, VInt y => Z.eqb x y
  | VText x, VText y => String.eqb x y
  | _, _ => false
  end.

Definition is_null (v : value) : bool :=
  match v with VNull => true | _ => false end.

(** The key constraint of a column.  [Rowid] is INTEGER PRIMARY KEY, an
    alias of the row id, with or without AUTOINCREMENT; [Primary] is a
    primary key of another type. *)
Inductive key :=
| Plain
| Unique
| Primary
| Rowid (autoincrement : bool).

Record column := {
  cname : string;
  ctype : string;
  cnotnull : bool;
  cdflt : value;
  ckey : key
}.

Record row := {
  rowid : Z;
  cells : list value
}.

(** [tseq] is the largest row id the table ever held; the engine keeps
    it in [sqlite_sequence] for an AUTOINCREMENT table and this model
    reads it for such a table only. *)
Record stored_table := {
  tname : string;
  tcols : list column;
  trows : list row;
  tseq : Z
}.

Definition database := list stored_table.

(** One row of [PRAGMA table_info]: the tuple
    [(cid, name, type, notnull, dflt_value, pk)]. *)
Record info := {
  cid : nat;
  name : string;
  type : string;
  notnull : bool;
  dflt_value : value;
  pk : bool
}.

(** What the manager cannot see of the engine.
    - [is_name s]: the tokenizer reads [s], spliced unquoted into the
      statement, as one identifier; a statement built from another text
      does not prepare.
    - [read_column d]: the engine's reading of the column definition
      [d], [None] when it is malformed.
    - [affinity ty v]: the value stored when [v] is written to a column
      declared [ty].
    - [text_equals ty s k]: whether the text [s] held in a column
      declared [ty] compares equal to the integer [k]. *)
Record rules := {
  is_name : string -> bool;
  read_column : string -> option column;
  affinity : string -> value -> value;
  text_equals : string -> string -> Z -> bool
}.

Inductive statement :=
| PragmaTableInfo (table : string)
| CreateTableIfNotExists (table : string) (columns : list string)
| InsertInto (table : string) (columns : list string) (values : list value)
| SelectAll (table : string)
| SelectWhereId (table : string) (row_id : Z)
| UpdateWhereId (table : string) (columns : list string)
    (values : list value) (row_id : Z)
| DeleteWhereId (table : string) (row_id : Z)
| DropTableIfExists (table : string).

Record cursor := {
  fetch_info : list info;          (* [fetchall()] after the PRAGMA *)
  fetchall : list (list value);    (* [fetchall()] after a SELECT *)
  lastrowid : Z;
  rowcount : nat
}.

Definition no_cursor : cursor :=
  {| fetch_info := []; fetchall := []; lastrowid := 0; rowcount := 0 |}.

(** Names of tables and columns compare without regard to case. *)
Definition name_eqb (a b : string) : bool :=
  String.eqb (Py.lower a) (Py.lower b).

Definition find_table (db : database) (table : string) : option stored_table :=
  find (fun t => name_eqb (tname t) table) db.

(** The catalogue with the table named as [t'] replaced by [t']. *)
Fixpoint put_table (db : database) (t' : stored_table) : database :=
  match db with
  | [] => []
  | t :: db' =>
      if name_eqb (tname t) (tname t') then t' :: db'
      else t :: put_table db' t'
  end.

Definition drop_table (db : database) (table : string) : database :=
  filter (fun t => negb (name_eqb (tname t) table)) db.

Fixpoint index_of {A} (p : A -> bool) (l : list A) : option nat :=
  match l with
  | [] => None
  | x :: l' =>
      if p x then Some 0%nat
      else match index_of p l' with
           | Some i => Some (S i)
           | None => None
           end
  end.

Definition has_column (cols : list column) (n : string) : bool :=
  existsb (fun c => name_eqb (cname c) n) cols.

Definition is_primary (k : key) : bool :=
  match k with Primary | Rowid _ => true | _ => false end.

Definition is_rowid (k : key) : bool :=
  match k with Rowid _ => true | _ => false end.

Definition is_unique (k : key) : bool :=
  match k with Plain => false | _ => true end.

Definition describe (cols : list column) : list info :=
  map (fun ic : nat * column =>
         {| cid := fst ic;
            name := cname (snd ic);
            type := ctype (snd ic);
            notnull := cnotnull (snd ic);
            dflt_value := cdflt (snd ic);
            pk := is_primary (ckey (snd ic)) |})
      (combine (seq 0 (List.length cols)) cols).

Section Engine.

Variable R : rules.

(** [WHERE id = ?] on one row: [i] is the position of the column the
    name [id] resolves to and [c] that column. *)
Definition id_is (c : column) (i : nat) (k : Z) (r : row) : bool :=
  match nth i (cells r) VNull with
  | VNull => false
  | VInt z => Z.eqb z k
  | VText s => text_equals R (ctype c) s k
  end.

(** The column [id] of the WHERE clause and its position. *)
Definition id_of (t : stored_table) : option (nat * column) :=
  match index_of (fun c => name_eqb (cname c) "id") (tcols t) with
  | Some i =>
      match nth_error (tcols t) i with
      | Some c => Some (i, c)
      | None => None
      end
  | None => None
  end.

(** The value bound to column [n] by [INSERT INTO t (columns) VALUES (?)]
    or [SET c = ?]. *)
Fixpoint bound (columns : list string) (values : list value) (n : string)
  : option value :=
  match columns, values with
  | c :: columns', v :: values' =>
      if name_eqb c n then Some v else bound columns' values' n
  | _, _ => None
  end.

(** The row id the engine picks when the statement gives none. *)
Definition fresh_rowid (t : stored_table) : Z :=
  let used := match map rowid (trows t) with
              | [] => 0%Z
              | z :: zs => fold_right Z.max z zs
              end in
  if existsb (fun c => match ckey c with Rowid true => true | _ => false end)
       (tcols t)
  then (Z.max used (tseq t) + 1)%Z
  else (used + 1)%Z.

Fixpoint set_nth {A} (i : nat) (x : A) (l : list A) : list A :=
  match l, i with
  | [], _ => []
  | _ :: l', O => x :: l'
  | y :: l', S j => y :: set_nth j x l'
  end.

(** Whether row [r] may stand next to the rows [others]: its row id is
    not taken, no NOT NULL column holds NULL, and no UNIQUE or PRIMARY
    KEY column repeats a value that is not NULL. *)
Definition accepts (cols : list column) (others : list row) (r : row) : bool :=
  negb (existsb (fun o => Z.eqb (rowid o) (rowid r)) others)
  && forallb (fun ic : nat * column =>
                let v := nth (fst ic) (cells r) VNull in
                negb (cnotnull (snd ic) && is_null v)
                && (negb (is_unique (ckey (snd ic)))
                    || is_null v
                    || negb (existsb
                               (fun o => value_eqb (nth (fst ic) (cells o) VNull) v)
                               others)))
       (combine (seq 0 (List.length cols)) cols).

(** The cells of a new row: the bound value under the affinity of its
    column, or the default of a column the statement does not name. *)
Definition new_cells (t : stored_table) (columns : list string)
  (values : list value) : list value :=
  map (fun c => match bound columns values (cname c) with
                | Some v => affinity R (ctype c) v
                | None => cdflt c
                end)
      (tcols t).

Definition rowid_position (cols : list column) : option nat :=
  index_of (fun c => is_rowid (ckey c)) cols.

(** The row [INSERT] builds: the row id is the integer written to the
    INTEGER PRIMARY KEY column, or a fresh one. *)
Definition new_row (t : stored_table) (columns : list string)
  (values : list value) : sqlite_error + row :=
  let cells0 := new_cells t columns values in
  match rowid_position (tcols t) with
  | None => inr {| rowid := fresh_rowid t; cells := cells0 |}
  | Some i =>
      match nth i cells0 VNull with
      | VInt z => inr {| rowid := z; cells := cells0 |}
      | VNull => inr {| rowid := fresh_rowid t;
                        cells := set_nth i (VInt (fresh_rowid t)) cells0 |}
      | VText _ => inl (IntegrityError "datatype mismatch")
      end
  end.

(** The row [UPDATE ... SET columns = values] makes of [r]. *)
Definition set_row (t : stored_table) (columns : list string)
  (values : list value) (r : row) : sqlite_error + row :=
  let cells1 :=
    map (fun cv : column * value =>
           match bound columns values (cname (fst cv)) with
           | Some v => affinity R (ctype (fst cv)) v
           | None => snd cv
           end)
        (combine (tcols t) (cells r)) in
  match rowid_position (tcols t) with
  | None => inr {| rowid := rowid r; cells := cells1 |}
  | Some i =>
      match nth i cells1 VNull with
      | VInt z => inr {| rowid := z; cells := cells1 |}
      | _ => inl (IntegrityError "datatype mismatch")
      end
  end.

(** [UPDATE] over the rows in order: each row paired with whether the
    WHERE clause selected it. *)
Fixpoint set_rows (t : stored_table) (columns : list string)
  (values : list value) (hit : row -> bool) (rows : list row)
  : sqlite_error + list (bool * row) :=
  match rows with
  | [] => inr []
  | r :: rows' =>
      match (if hit r then set_row t columns values r else inr r) with
      | inl e => inl e
      | inr r' =>
          match set_rows t columns values hit rows' with
          | inl e => inl e
          | inr out => inr ((hit r, r') :: out)
          end
      end
  end.

(** Every rewritten row is accepted next to all the other rows of the
    result. *)
Fixpoint accepted_all (cols : list column) (before : list row)
  (after : list (bool * row)) : bool :=
  match after with
  | [] => true
  | (m, r) :: rest =>
      (if m then accepts cols (before ++ map snd rest) r else true)
      && accepted_all cols (before ++ [r]) rest
  end.

Definition with_rows (t : stored_table) (rows : list row) (sq : Z)
  : stored_table :=
  {| tname := tname t; tcols := tcols t; trows := rows; tseq := sq |}.

Definition resolve (db : database) (table : string)
  : sqlite_error + stored_table :=
  if negb (is_name R table) then inl (OperationalError "syntax error")
  else match find_table db table with
       | Some t => inr t
       | None => inl (OperationalError ("no such table: " ++ table))
       end.

Definition resolve_id (t : stored_table) : sqlite_error + (nat * column) :=
  match id_of t with
  | Some ic => inr ic
  | None => inl (OperationalError "no such column: id")
  end.

(** The static checks of [INSERT INTO t (columns) VALUES (?, ...)] and of
    [UPDATE t SET c = ?, ...]: the column list is not empty, every name is
    an identifier and a column of the table, and there is one value per
    column; [miscount] is what the engine raises otherwise, on an INSERT
    whose VALUES list is not as long as its column list and on an UPDATE
    that is given another number of parameters than it has placeholders. *)
Definition check_columns (t : stored_table) (columns : list string)
  (values : list value) (miscount : sqlite_error) : option sqlite_error :=
  match columns with
  | [] => Some (OperationalError "syntax error")
  | _ =>
      if negb (forallb (is_name R) columns)
      then Some (OperationalError "syntax error")
      else if negb (forallb (has_column (tcols t)) columns)
      then Some (OperationalError "no such column")
      else if negb (List.length values =? List.length columns)%nat
      then Some miscount
      else None
  end.

Definition distinct_names (cols : list column) : bool :=
  (fix go (l : list column) : bool :=
     match l with
     | [] => true
     | c :: l' => negb (has_column l' (cname c)) && go l'
     end) cols.

Fixpoint read_columns (defs : list string) : option (list column) :=
  match defs with
  | [] => Some []
  | d :: defs' =>
      match read_column R d, read_columns defs' with
      | Some c, Some cs => Some (c :: cs)
      | _, _ => None
      end
  end.

(** [cursor.execute(statement, parameters)]: the cursor and the
    catalogue after the statement, or the exception. *)
Definition execute (s : statement) (db : database)
  : sqlite_error + (cursor * database) :=
  match s with
  | PragmaTableInfo table =>
      if negb (is_name R table) then inl (OperationalError "syntax error")
      else match find_table db table with
           | Some t =>
               inr ({| fetch_info := describe (tcols t); fetchall := [];
                       lastrowid := 0; rowcount := 0 |}, db)
           | None => inr (no_cursor, db)
           end
  | CreateTableIfNotExists table columns =>
      if negb (is_name R table) then inl (OperationalError "syntax error")
      else match find_table db table with
           | Some _ => inr (no_cursor, db)
           | None =>
               match read_columns columns with
               | None => inl (OperationalError "syntax error")
               | Some [] => inl (OperationalError "syntax error")
               | Some cols =>
                   if negb (distinct_names cols)
                   then inl (OperationalError "duplicate column name")
                   else if (1 <? List.length
                                   (filter (fun c => is_primary (ckey c)) cols))%nat
                   then inl (OperationalError "more than one primary key")
                   else inr (no_cursor,
                             db ++ [{| tname := table; tcols := cols;
                                       trows := []; tseq := 0 |}])
               end
           end
  | InsertInto table columns values =>
      match resolve db table with
      | inl e => inl e
      | inr t =>
          match check_columns t columns values
                  (OperationalError "values for columns") with
          | Some e => inl e
          | None =>
              match new_row t columns values with
              | inl e => inl e
              | inr r =>
                  if accepts (tcols t) (trows t) r
                  then inr ({| fetch_info := []; fetchall := [];
                               lastrowid := rowid r; rowcount := 1 |},
                            put_table db
                              (with_rows t (trows t ++ [r])
                                 (Z.max (tseq t) (rowid r))))
                  else inl (IntegrityError "constraint failed")
              end
          end
      end
  | SelectAll table =>
      match resolve db table with
      | inl e => inl e
      | inr t =>
          inr ({| fetch_info := []; fetchall := map cells (trows t);
                  lastrowid := 0; rowcount := 0 |}, db)
      end
  | SelectWhereId table row_id =>
      match resolve db table with
      | inl e => inl e
      | inr t =>
          match resolve_id t with
          | inl e => inl e
          | inr (i, c) =>
              inr ({| fetch_info := [];
                      fetchall := map cells (filter (id_is c i row_id) (trows t));
                      lastrowid := 0; rowcount := 0 |}, db)
          end
      end
  | UpdateWhereId table columns values row_id =>
      match resolve db table with
      | inl e => inl e
      | inr t =>
          match check_columns t columns values
                  (ProgrammingError "Incorrect number of bindings supplied")
          with
          | Some e => inl e
          | None =>
              match resolve_id t with
              | inl e => inl e
              | inr (i, c) =>
                  match set_rows t columns values (id_is c i row_id) (trows t) with
                  | inl e => inl e
                  | inr out =>
                      if accepted_all (tcols t) [] out
                      then inr ({| fetch_info := []; fetchall := [];
                                   lastrowid := 0;
                                   rowcount := List.length
                                     (filter (id_is c i row_id) (trows t)) |},
                                put_table db
                                  (with_rows t (map snd out) (tseq t)))
                      else inl (IntegrityError "constraint failed")
                  end
              end
          end
      end
  | DeleteWhereId table row_id =>
      match resolve db table with
      | inl e => inl e
      | inr t =>
          match resolve_id t with
          | inl e => inl e
          | inr (i, c) =>
              inr ({| fetch_info := []; fetchall := []; lastrowid := 0;
                      rowcount := List.length
                        (filter (id_is c i row_id) (trows t)) |},
                   put_table db
                     (with_rows t
                        (filter (fun r => negb (id_is c i row_id r)) (trows t))
                        (tseq t)))
          end
      end
  | DropTableIfExists table =>
      if negb (is_name R table) then inl (OperationalError "syntax error")
      else inr (no_cursor, drop_table db table)
  end.

End Engine.

End Sqlite.

(** ** The database manager: [DBManager] *)

Module DBManager.

Import Sqlite.

(** A method of the manager, run on the open connection: the value it
    returns or the exception it raises, and the catalogue it leaves. *)
Definition M (A : Type) : Type := database -> (py_error + A) * database.

Definition ret {A} (a : A) : M A := fun db => (inr a, db).

Definition raise {A} (e : py_error) : M A := fun db => (inl e, db).

Definition bind {A B} (m : M A) (k : A -> M B) : M B :=
  fun db =>
    match m db with
    | (inr a, db') => k a db'
    | (inl e, db') => (inl e, db')
    end.

Notation "x <- m ;; k" := (bind m (fun x => k))
  (at level 61, m at next level, right associativity).

Section Connection.

Variable R : rules.

(** [try: cursor.execute(s); self.conn.commit(); return f(cursor)
    except sqlite3.Error as e: raise RuntimeError(f"{what}: {e}")].
    A statement that fails leaves the catalogue as it was. *)
Definition try_execute {A} (s : statement) (what : string)
  (f : cursor -> A) : M A :=
  fun db =>
    match execute R s db with
    | inr (cur, db') => (inr (f cur), db')
    | inl e => (inl (RuntimeError (Engine what e)), db)
    end.

(** [table_info]: only [sqlite3.OperationalError] is caught. *)
Definition table_info (table : string) : M (option (list info)) :=
  fun db =>
    match execute R (PragmaTableInfo table) db with
    | inr (cur, db') => (inr (Some (fetch_info cur)), db')
    | inl (OperationalError _) => (inr None, db)
    | inl e => (inl (Uncaught e), db)
    end.

(** [not info] *)
Definition no_info (i : option (list info)) : bool :=
  match i with
  | None => true
  | Some [] => true
  | Some _ => false
  end.

Definition rows_of (i : option (list info)) : list info :=
  match i with Some l => l | None => [] end.

(** [[col[1] for col in info if col[1] != 'id']] *)
Definition value_columns (i : list info) : list string :=
  map name (filter (fun col => negb (String.eqb (name col) "id")) i).

Definition create_table (table : string) (schema : list string) : M bool :=
  match schema_columns schema with
  | inl e => raise e
  | inr columns =>
      try_execute (CreateTableIfNotExists table columns)
        "Error creating table" (fun _ => true)
  end.

Definition insert (table : string) (values : list string) : M Z :=
  i <- table_info table ;;
  if no_info i then
    raise (ValueError (Text ("Table '" ++ table
             ++ "' does not exist. Create it first with --schema")))
  else
    let columns := value_columns (rows_of i) in
    if negb (List.length values =? List.length columns)%nat then
      raise (ValueError
               (Expected (List.length columns) columns (List.length values)))
    else
      try_execute (InsertInto table columns (map VText values))
        "Error inserting row" lastrowid.

Definition select (table : string) (row_id : option Z)
  : M (list (list value)) :=
  match row_id with
  | Some k =>
      try_execute (SelectWhereId table k) "Error selecting rows" fetchall
  | None =>
      try_execute (SelectAll table) "Error selecting rows" fetchall
  end.

Definition update (table : string) (row_id : Z) (values : list string)
  : M nat :=
  i <- table_info table ;;
  if no_info i then
    raise (ValueError (Text ("Table '" ++ table ++ "' does not exist")))
  else
    let columns := value_columns (rows_of i) in
    if negb (List.length values =? List.length columns)%nat then
      raise (ValueError
               (Expected (List.length columns) columns (List.length values)))
    else
      try_execute (UpdateWhereId table columns (map VText values) row_id)
        "Error updating row" rowcount.

Definition delete (table : string) (row_id : Z) : M nat :=
  try_execute (DeleteWhereId table row_id) "Error deleting row" rowcount.

Definition drop_table (table : string) : M bool :=
  try_execute (DropTableIfExists table) "Error dropping table" (fun _ => true).

End Connection.

End DBManager.

(** ** The command interface: [dbbox/cli.py] *)

Module Cli.

Import Sqlite.
Import DBManager.

Definition comma : ascii := ","%char.
Definition dquote : ascii := "034"%char.
Definition newline : ascii := "010"%char.

Definition chr (c : ascii) : string := String c EmptyString.

(** [str(val) if val is not None else ""] *)
Definition val_str (val : value) : string :=
  match val with
  | VNull => ""
  | VInt z => Py.str_int z
  | VText s => s
  end.

(** The body of [for val in row] in [format_csv]: the text appended to
    [values]. *)
Definition csv_value (val : value) : string :=
  let s := val_str val in
  if Py.contains comma s || Py.contains dquote s || Py.contains newline s
  then (chr dquote ++ Py.replace dquote (chr dquote ++ chr dquote) s
        ++ chr dquote)%string
  else s.

(** [format_csv(rows, cursor_description)]; [columns] are the names, the
    first entries of the tuples of [cursor_description]. *)
Definition format_csv (rows : list (list value)) (columns : list string)
  : string :=
  match rows with
  | [] => ""
  | _ =>
      let lines := [Py.join "," columns] in
      let lines :=
        fold_left
          (fun lines row =>
             let values :=
               fold_left (fun values val => values ++ [csv_value val]) row [] in
             lines ++ [Py.join "," values])
          rows lines in
      Py.join (chr newline) lines
  end.






(** A Python [dict] with text keys: the keys in the order of their first
    insertion; assigning to a key it holds replaces the value in
    place. *)
Fixpoint dict_set (d : list (string * value)) (k : string) (v : value)
  : list (string * value) :=
  match d with
  | [] => [(k, v)]
  | (k', v') :: d' =>
      if String.eqb k' k then (k, v) :: d' else (k', v') :: dict_set d' k v
  end.

(** [{col: val for col, val in zip(columns, row)}] *)
Definition row_dict (columns : list string) (row : list value)
  : list (string * value) :=
  fold_left (fun d cv => dict_set d (fst cv) (snd cv)) (combine columns row) [].

(** [json.dumps] of a cell: [None], an [int] or a [str]. *)
Definition dumps_value (val : value) : string :=
  match val with
  | VNull => "null"
  | VInt z => Py.str_int z
  | VText s => Json.dumps_str s
  end.

Definition dumps_item (kv : string * value) : string :=
  (Json.dumps_str (fst kv) ++ ": " ++ dumps_value (snd kv))%string.

(** [json.dumps(row_dict, ensure_ascii=False)] *)
Definition dumps_dict (d : list (string * value)) : string :=
  ("{" ++ Py.join ", " (map dumps_item d) ++ "}")%string.

(** One dictionary of [json.dumps(result, indent=2, ensure_ascii=False)],
    at the first level of the list. *)
Definition dumps_dict_indented (d : list (string * value)) : string :=
  match d with
  | [] => "{}"
  | _ =>
      ("{" ++ chr newline ++ "    "
       ++ Py.join ("," ++ chr newline ++ "    ") (map dumps_item d)
       ++ chr newline ++ "  }")%string
  end.

(** [format_json(rows, cursor_description)] *)
Definition format_json (rows : list (list value)) (columns : list string)
  : string :=
  match rows with
  | [] => "[]"
  | _ =>
      let result :=
        fold_left (fun result row => result ++ [row_dict columns row]) rows [] in
      ("[" ++ chr newline ++ "  "
       ++ Py.join ("," ++ chr newline ++ "  ") (map dumps_dict_indented result)
       ++ chr newline ++ "]")%string
  end.

(** [format_jsonl(rows, cursor_description)] *)
Definition format_jsonl (rows : list (list value)) (columns : list string)
  : string :=
  match rows with
  | [] => ""
  | _ =>
      let lines :=
        fold_left (fun lines row => lines ++ [dumps_dict (row_dict columns row)])
          rows [] in
      Py.join (chr newline) lines
  end.

(** *** Bulk import: the branch [elif args.import_data] of [main] *)

(** A line written to the error stream; the text of an exception is kept
    as the exception. *)
Inductive err_line :=
| Line (s : string)
| ErrorLine (line_num : nat) (e : py_error)
    (* f"Error line {line_num}: {e}" *)
| Error (e : py_error).
    (* f"Error: {e}" *)

Record import_state := {
  conn : database;
  imported_count : nat;
  error_count : nat;
  stderr : list err_line
}.

Section Main.

Variable R : rules.

(** One turn of [for line_num, line in enumerate(sys.stdin, 1)]. *)
Definition import_line (table : string) (expected_cols : nat)
  (st : import_state) (line_num : nat) (line : string) : import_state :=
  let line := Py.strip line in
  if String.eqb line "" then st
  else
    let values := Py.split line in
    if negb (List.length values =? expected_cols)%nat then
      {| conn := conn st;
         imported_count := imported_count st;
         error_count := error_count st + 1;
         stderr := stderr st ++
           [Line ("Warning line " ++ Py.str_nat line_num ++ ": Expected "
                  ++ Py.str_nat expected_cols ++ " values, got "
                  ++ Py.str_nat (List.length values) ++ " - skipping")] |}
    else
      match insert R table values (conn st) with
      | (inr _, db') =>
          {| conn := db';
             imported_count := imported_count st + 1;
             error_count := error_count st;
             stderr := stderr st |}
      | (inl e, db') =>
          {| conn := db';
             imported_count := imported_count st;
             error_count := error_count st + 1;
             stderr := stderr st ++ [ErrorLine line_num e] |}
      end.

(** The loop, [line_num] being the number of the first line of [lines]. *)
Fixpoint import_lines (table : string) (expected_cols : nat)
  (st : import_state) (line_num : nat) (lines : list string) : import_state :=
  match lines with
  | [] => st
  | line :: rest =>
      import_lines table expected_cols
        (import_line table expected_cols st line_num line) (S line_num) rest
  end.

Definition summary (imported errors : nat) : string :=
  if (0 <? errors)%nat
  then ("✓ Imported " ++ Py.str_nat imported ++ " row(s), "
        ++ Py.str_nat errors ++ " error(s)")%string
  else ("✓ Imported " ++ Py.str_nat imported ++ " row(s)")%string.

(** What one run of the command leaves: the exit status, or the
    exception that escapes [main]; the lines printed; the catalogue. *)
Record run := {
  status : py_error + nat;
  stdout : list string;
  errors : list err_line;
  final : database
}.

Definition import_data (table : string) (stdin : list string)
  (db : database) : run :=
  match table_info R table db with
  | (inl e, db') =>
      {| status := inl e; stdout := []; errors := []; final := db' |}
  | (inr i, db') =>
      if no_info i then
        {| status := inr 1%nat; stdout := [];
           errors := [Line ("Error: Table '" ++ table
                        ++ "' does not exist. Create it first with --schema")];
           final := db' |}
      else
        let expected_cols :=
          List.length
            (filter (fun col => negb (String.eqb (name col) "id")) (rows_of i)) in
        let st0 :=
          {| conn := db'; imported_count := 0; error_count := 0;
             stderr := [Line ("Importing data into '" ++ table ++ "' (expecting "
                          ++ Py.str_nat expected_cols ++ " values per line)...")] |} in
        let st := import_lines table expected_cols st0 1 stdin in
        let out := [summary (imported_count st) (error_count st)] in
        if (imported_count st =? 0)%nat && (error_count st =? 0)%nat then
          {| status := inr 1%nat; stdout := out;
             errors := stderr st ++ [Line "No data provided on stdin"];
             final := conn st |}
        else
          {| status := inr 0%nat; stdout := out; errors := stderr st;
             final := conn st |}
  end.

(** *** The branches [elif args.update] and [if args.drop_table] *)

Section Branches.

(** [int(s)]: the integer a text denotes, [None] when [int] raises
    [ValueError]. *)
Variable py_int : string -> option Z.




End Branches.

(** *** The operation [main] runs *)

(** The namespace [parser.parse_args()] returns.  [read] is [None]
    without [-r], [Some None] for [-r] alone (the constant [True]) and
    [Some (Some s)] for [-r s]; [delete] went through [type=int]. *)
Record args := {
  database : option string;
  table : option string;
  create : option (list string);
  read : option (option string);
  update : option (list string);
  delete : option Z;
  import_flag : bool;          (* [args.import_data] *)
  databases : bool;
  list_flag : bool;            (* [args.list] *)
  schema : option (list string);
  tables : bool;
  info_flag : bool;            (* [args.info] *)
  drop_table_flag : bool;      (* [args.drop_table] *)
  path : bool;
  drop_database : bool
}.

(** Truth of a Python value in [if x] and [not x]. *)
Definition truthy_str (s : option string) : bool :=
  match s with
  | None => false
  | Some s => negb (String.eqb s "")
  end.

Definition truthy_list (l : option (list string)) : bool :=
  match l with
  | None | Some [] => false
  | Some _ => true
  end.

Definition truthy_int (n : option Z) : bool :=
  match n with
  | None => false
  | Some z => negb (Z.eqb z 0)
  end.

(** The two positional commands: [dbbox databases] and
    [dbbox mydb tables]. *)
Definition positional (a : args) : args :=
  let named s o := match o with Some x => String.eqb x s | None => false end in
  {| database := if named "databases" (database a) then None else database a;
     table := if named "tables" (table a) then None else table a;
     create := create a; read := read a; update := update a;
     delete := delete a; import_flag := import_flag a;
     databases := databases a || named "databases" (database a);
     list_flag := list_flag a; schema := schema a;
     tables := tables a || named "tables" (table a);
     info_flag := info_flag a; drop_table_flag := drop_table_flag a;
     path := path a; drop_database := drop_database a |}.

Inductive operation :=
| ListDatabases
| ErrorDatabaseRequired        (* [parser.error]: exit status 2 *)
| ShowPath
| DropDatabase
| ListTables
| ErrorTableRequired           (* [parser.error] *)
| ShowInfo
| DropTable
| CreateTable (schema : list string)
| Insert (values : list string)
| Read (row_id : option string)
| Update (values : list string)
| Delete (row_id : Z)
| Import
| ErrorNoOperation.            (* [parser.error("No operation specified...")] *)

(** The chain of tests of [main], in its order. *)
Definition dispatch (a0 : args) : operation :=
  let a := positional a0 in
  if databases a || (list_flag a && negb (truthy_str (database a)))
  then ListDatabases
  else if negb (truthy_str (database a)) then ErrorDatabaseRequired
  else if path a then ShowPath
  else if drop_database a then DropDatabase
  else if tables a || list_flag a then ListTables
  else if negb (truthy_str (table a)) then ErrorTableRequired
  else if info_flag a then ShowInfo
  else if drop_table_flag a then DropTable
  else if truthy_list (schema a)
  then CreateTable (match schema a with Some l => l | None => [] end)
  else if truthy_list (create a)
  then Insert (match create a with Some l => l | None => [] end)
  else match read a with
       | Some r => Read r
       | None =>
           if truthy_list (update a)
           then Update (match update a with Some l => l | None => [] end)
           else if truthy_int (delete a)
           then Delete (match delete a with Some z => z | None => 0%Z end)
           else if import_flag a then Import
           else ErrorNoOperation
       end.

(** The branch [elif args.delete] of [main]. *)
Definition delete_row (table : string) (row_id : Z) (db : Sqlite.database)
  : run :=
  match DBManager.delete R table row_id db with
  | (inr count, db') =>
      {| status := inr 0%nat;
         stdout := [if (count =? 0)%nat
                    then ("No row with id=" ++ Py.str_int row_id ++ " found")%string
                    else ("✓ Deleted row id=" ++ Py.str_int row_id)%string];
         errors := []; final := db' |}
  | (inl (Uncaught e), db') =>
      {| status := inl (Uncaught e); stdout := []; errors := []; final := db' |}
  | (inl e, db') =>
      {| status := inr 1%nat; stdout := [];
         errors := [Error e]; final := db' |}
  end.

End Main.

End Cli.

(** ** An instance of the engine's rules

    A small reader of column definitions, enough for the definitions the
    examples below create: [name TYPE] followed by any of PRIMARY KEY,
    AUTOINCREMENT, UNIQUE, NOT NULL and DEFAULT with an integer. *)

Module Demo.

Import Sqlite.

Definition is_digit (c : ascii) : bool :=
  ((48 <=? nat_of_ascii c) && (nat_of_ascii c <=? 57))%nat.

Definition is_word_char (c : ascii) : bool :=
  Py.is_upper c || Py.is_lower c || is_digit c || Ascii.eqb c "_"%char.

Fixpoint all_chars (p : ascii -> bool) (s : string) : bool :=
  match s with
  | EmptyString => true
  | String c s' => p c && all_chars p s'
  end.

Definition identifier (s : string) : bool :=
  match s with
  | EmptyString => false
  | String c _ => negb (is_digit c) && all_chars is_word_char s
  end.

Fixpoint digits_value (acc : Z) (s : string) : Z :=
  match s with
  | EmptyString => acc
  | String c s' => digits_value (10 * acc + Z.of_nat (nat_of_ascii c - 48)) s'
  end.

Definition integer_text (s : string) : option Z :=
  match s with
  | EmptyString => None
  | _ => if all_chars is_digit s then Some (digits_value 0 s) else None
  end.

Fixpoint follows (a b : string) (tokens : list string) : bool :=
  match tokens with
  | x :: ((y :: _) as rest) =>
      (String.eqb x a && String.eqb y b) || follows a b rest
  | _ => false
  end.

Fixpoint after (a : string) (tokens : list string) : option string :=
  match tokens with
  | x :: ((y :: _) as rest) => if String.eqb x a then Some y else after a rest
  | _ => None
  end.

Definition has (a : string) (tokens : list string) : bool :=
  existsb (String.eqb a) tokens.

Definition reader (d : string) : option column :=
  match Py.split d with
  | [] => None
  | n :: rest =>
      if negb (identifier n) then None
      else
        let up := map Py.upper rest in
        let ty := match up with
                  | [] => ""
                  | t :: _ => t
                  end in
        Some {| cname := n;
                ctype := ty;
                cnotnull := follows "NOT" "NULL" up;
                cdflt := match after "DEFAULT" up with
                         | Some x => match integer_text x with
                                     | Some z => VInt z
                                     | None => VText x
                                     end
                         | None => VNull
                         end;
                ckey := if follows "PRIMARY" "KEY" up
                        then (if String.eqb ty "INTEGER"
                              then Rowid (has "AUTOINCREMENT" up)
                              else Primary)
                        else if has "UNIQUE" up then Unique
                        else Plain |}
  end.

(** INTEGER affinity turns a text of digits into the integer; every
    other value is stored as it is bound. *)
Definition store (ty : string) (v : value) : value :=
  match v with
  | VText s =>
      if String.eqb ty "INTEGER"
      then match integer_text s with
           | Some z => VInt z
           | None => v
           end
      else v
  | _ => v
  end.

(** A text equals an integer in a TEXT column when it is its decimal
    form. *)
Definition text_is (ty : string) (s : string) (k : Z) : bool :=
  String.eqb ty "TEXT" && String.eqb s (Py.str_int k).


Definition rules : Sqlite.rules :=
  {| is_name := identifier;
     read_column := reader;
     affinity := store;
     text_equals := text_is |}.

End Demo.

(** ** Vocabulary of the statements *)

Import Sqlite.

(** The column name of a schema spec: the text before its first [:]. *)
Definition spec_name (col_def : string) : string :=
  match Py.split_once ":"%char col_def with
  | Some (n, _) => n
  | None => col_def
  end.

(** The column definition a spec with a [:] becomes. *)
Definition column_of (col_def : string) : string :=
  match Py.split_once ":"%char col_def with
  | Some (n, t) => (n ++ " " ++ Py.upper t)%string
  | None => col_def
  end.

(** A whole name that is [id] in any case. *)
Definition named_id (n : string) : bool := String.eqb (Py.lower n) "id".

(** A name that is [id], or begins with [id] and a space, in any case. *)
Definition id_like (n : string) : bool :=
  named_id n || Py.startswith (Py.lower n) "id ".

Definition count_id (columns : list string) : nat :=
  List.length (filter declares_id columns).

Fixpoint occurrences (c : ascii) (s : string) : nat :=
  match s with
  | EmptyString => 0
  | String d s' => (if Ascii.eqb d c then 1 else 0) + occurrences c s'
  end.

(** The table a name reaches through [PRAGMA table_info]: the name is an
    identifier and the catalogue holds a table of that name, which has
    columns. *)
Definition visible (R : rules) (db : database) (table : string)
  : option stored_table :=
  if is_name R table
  then match find_table db table with
       | Some t => match tcols t with
                   | [] => None
                   | _ => Some t
                   end
       | None => None
       end
  else None.

(** The columns [insert] and [update] bind values to, in introspected
    order: those whose name is not exactly [id]. *)
Definition value_cols (t : stored_table) : list column :=
  filter (fun c => negb (String.eqb (cname c) "id")) (tcols t).

(** The cell [INSERT INTO t (columns) VALUES (values)] writes to column
    [c] before the row id is settled. *)
Definition written (R : rules) (columns : list string) (values : list value)
  (c : column) : value :=
  match bound columns values (cname c) with
  | Some v => affinity R (ctype c) v
  | None => cdflt c
  end.

(** The row ids of a table are distinct and column [i] holds them. *)
Definition keyed (t : stored_table) (i : nat) : Prop :=
  NoDup (map rowid (trows t))
  /\ Forall (fun r => nth i (cells r) VNull = VInt (rowid r)) (trows t).

(** A field of a CSV record as RFC 4180 writes it: [s] with every double
    quote doubled. *)
Definition doubled (s : string) : string :=
  string_of_list_ascii
    (flat_map (fun c => if Ascii.eqb c Cli.dquote then [Cli.dquote; Cli.dquote]
                        else [c])
       (list_ascii_of_string s)).

Definition needs_quotes (s : string) : bool :=
  existsb (fun c => Ascii.eqb c Cli.comma || Ascii.eqb c Cli.dquote
                    || Ascii.eqb c Cli.newline)
    (list_ascii_of_string s).







(** [a] with [args.delete] set to [d]. *)
Definition with_delete (a : Cli.args) (d : option Z) : Cli.args :=
  {| Cli.database := Cli.database a; Cli.table := Cli.table a;
     Cli.create := Cli.create a; Cli.read := Cli.read a;
     Cli.update := Cli.update a; Cli.delete := d;
     Cli.import_flag := Cli.import_flag a; Cli.databases := Cli.databases a;
     Cli.list_flag := Cli.list_flag a; Cli.schema := Cli.schema a;
     Cli.tables := Cli.tables a; Cli.info_flag := Cli.info_flag a;
     Cli.drop_table_flag := Cli.drop_table_flag a; Cli.path := Cli.path a;
     Cli.drop_database := Cli.drop_database a |}.





(** *** Vocabulary of the further properties *)



(** The rows of a table of the catalogue, as [SELECT *] shows them. *)
Definition rows_shown (db : database) (table : string) : list (list value) :=
  match find_table db table with
  | Some t => map cells (trows t)
  | None => []
  end.

(** The reading of one CSV record into its fields: a comma outside
    double quotes ends a field, a double quote opens or closes the quoted
    part, and a doubled one inside it is a double quote.  [cur] is the
    field being read, reversed. *)
Fixpoint read_record_aux (s : string) (cur : list ascii) (quoted : bool)
  : list string :=
  match s with
  | EmptyString => [string_of_list_ascii (rev cur)]
  | String c s1 =>
      if quoted then
        if Ascii.eqb c Cli.dquote then
          match s1 with
          | String d s2 =>
              if Ascii.eqb d Cli.dquote
              then read_record_aux s2 (Cli.dquote :: cur) true
              else read_record_aux s1 cur false
          | EmptyString => read_record_aux s1 cur false
          end
        else read_record_aux s1 (c :: cur) true
      else if Ascii.eqb c Cli.comma then
        string_of_list_ascii (rev cur) :: read_record_aux s1 [] false
      else if Ascii.eqb c Cli.dquote then read_record_aux s1 cur true
      else read_record_aux s1 (c :: cur) false
  end.

Definition read_record (s : string) : list string := read_record_aux s [] false.

(** What can follow a field in a record: nothing, or a comma. *)
Definition field_end (rest : string) : Prop :=
  match rest with
  | EmptyString => True
  | String d _ => d = Cli.comma
  end.

(** The value of a hexadecimal digit. *)
Definition hex_value (c : ascii) : nat :=
  let n := nat_of_ascii c in
  if ((48 <=? n) && (n <=? 57))%nat then n - 48
  else if ((97 <=? n) && (n <=? 102))%nat then n - 87
  else if ((65 <=? n) && (n <=? 70))%nat then n - 55
  else 0.

(** The character an escape letter of JSON stands for. *)
Definition escaped (x : ascii) : ascii :=
  if Ascii.eqb x "b" then "008"%char
  else if Ascii.eqb x "f" then "012"%char
  else if Ascii.eqb x "n" then "010"%char
  else if Ascii.eqb x "r" then "013"%char
  else if Ascii.eqb x "t" then "009"%char
  else x.

(** The reading of a JSON string after its opening quote, up to the
    closing one. *)
Fixpoint json_body (s : string) : string :=
  match s with
  | EmptyString => EmptyString
  | String c s1 =>
      if Ascii.eqb c Json.quote then EmptyString
      else if Ascii.eqb c Json.backslash then
        match s1 with
        | EmptyString => EmptyString
        | String x s2 =>
            if Ascii.eqb x "u" then
              match s2 with
              | String h1 (String h2 (String h3 (String h4 s3))) =>
                  String (ascii_of_nat
                            (((hex_value h1 * 16 + hex_value h2) * 16
                              + hex_value h3) * 16 + hex_value h4))
                    (json_body s3)
              | _ => EmptyString
              end
            else String (escaped x) (json_body s2)
        end
      else String c (json_body s1)
  end.

(** The reading of a JSON string. *)
Definition json_loads_str (s : string) : string :=
  match s with
  | EmptyString => EmptyString
  | String q s1 => if Ascii.eqb q Json.quote then json_body s1 else EmptyString
  end.

(** The line feeds of a text. *)
Definition line_feeds (s : string) : nat := occurrences Cli.newline s.

(** A list of names without repetition, as a test. *)
Fixpoint distinct (l : list string) : bool :=
  match l with
  | [] => true
  | x :: l' => negb (existsb (String.eqb x) l') && distinct l'
  end.

(** The value a dictionary holds for a key. *)
Fixpoint value_of (k : string) (d : list (string * value)) : option value :=
  match d with
  | [] => None
  | (k', v) :: d' => if String.eqb k' k then Some v else value_of k d'
  end.


(** The operations of [main] that act on one table. *)
Definition on_table (op : Cli.operation) : bool :=
  match op with
  | Cli.ShowInfo | Cli.DropTable | Cli.CreateTable _ | Cli.Insert _
  | Cli.Read _ | Cli.Update _ | Cli.Delete _ | Cli.Import => true
  | _ => false
  end.

(** Sample catalogues, built by the manager itself under [Demo.rules]. *)

(** [users], created from [name:TEXT age:INTEGER], empty and then with
    one row. *)
Definition users_empty : database :=
  Eval vm_compute in
    snd (DBManager.create_table Demo.rules "users" ["name:TEXT"; "age:INTEGER"] []).

Definition users_alice : database :=
  Eval vm_compute in
    snd (DBManager.insert Demo.rules "users" ["Alice"; "30"] users_empty).

(** [u], created from [email:TEXT UNIQUE], with one row. *)
Definition emails : database :=
  Eval vm_compute in
    snd (DBManager.insert Demo.rules "u" ["a@x"]
         (snd (DBManager.create_table Demo.rules "u" ["email:TEXT UNIQUE"] []))).

(** [t], created from [id:INTEGER DEFAULT 5] and [name:TEXT], with two
    rows. *)
Definition shared_ids : database :=
  Eval vm_compute in
    snd (DBManager.insert Demo.rules "t" ["b"]
         (snd (DBManager.insert Demo.rules "t" ["a"]
                 (snd (DBManager.create_table Demo.rules "t"
                         ["id:INTEGER DEFAULT 5"; "name:TEXT"] []))))).

(** Every table of the catalogue that has an INTEGER PRIMARY KEY column
    keeps distinct row ids in it. *)
Definition catalogue_keyed (db : database) : Prop :=
  Forall (fun t => forall i, rowid_position (tcols t) = Some i -> keyed t i) db.

Definition has_colon (s : string) : Prop := Py.contains ":"%char s = true.

Definition only_delete (d : option Z) : Cli.args :=
  {| Cli.database := Some "mydb"; Cli.table := Some "users";
     Cli.create := None; Cli.read := None; Cli.update := None;
     Cli.delete := d; Cli.import_flag := false; Cli.databases := false;
     Cli.list_flag := false; Cli.schema := None; Cli.tables := false;
     Cli.info_flag := false; Cli.drop_table_flag := false;
     Cli.path := false; Cli.drop_database := false |}.

(** ** The statements that do not hold as the specification words them *)

(** Whatever the schema, the column list keeps the order of the specs,
    gets the synthetic column in front when no spec is named [id], and
    holds exactly one [id] column. *)
Definition stated_one_id (schema : list string) : Prop :=
  forall columns, schema_columns schema = inr columns ->
    (exists synthetic, columns = synthetic ++ map column_of schema)
    /\ (existsb (fun s => named_id (spec_name s)) schema = false ->
        columns = id_column :: map column_of schema)
    /\ count_id columns = 1.

(** A spec that does not hold exactly one [:] is refused. *)
Definition stated_one_colon (schema : list string) : Prop :=
  forall col_def, In col_def schema -> occurrences ":"%char col_def <> 1 ->
    exists m, schema_columns schema = inl (ValueError m).



(** ** Strings *)

Lemma map_string_app f a b :
  Py.map_string f (a ++ b) = (Py.map_string f a ++ Py.map_string f b)%string.
Proof.
  induction a as [|c a IH]; simpl; [reflexivity | now rewrite IH].
Qed.

Lemma split_once_some c s a b :
  Py.split_once c s = Some (a, b) ->
  s = (a ++ String c b)%string /\ Py.contains c a = false.
Proof.
  revert a b. induction s as [|d s IH]; simpl; intros a b H; [discriminate|].
  destruct (Ascii.eqb d c) eqn:E.
  - apply Ascii.eqb_eq in E. inversion H; subst. now split.
  - destruct (Py.split_once c s) as [[a' b']|]; [|discriminate].
    inversion H; subst. destruct (IH a' b eq_refl) as [-> Hc].
    simpl. rewrite E. now split.
Qed.

Lemma contains_split_once c s :
  Py.contains c s = true -> exists a b, Py.split_once c s = Some (a, b).
Proof.
  induction s as [|d s IH]; simpl; [discriminate|].
  destruct (Ascii.eqb d c); simpl; intros H.
  - now exists EmptyString, s.
  - destruct (IH H) as (a & b & ->). now exists (String d a), b.
Qed.

Lemma not_contains_split_once c s :
  Py.contains c s = false -> Py.split_once c s = None.
Proof.
  induction s as [|d s IH]; simpl; [reflexivity|].
  destruct (Ascii.eqb d c); simpl; [discriminate|].
  intros H. now rewrite (IH H).
Qed.

Lemma contains_occurrences c s :
  Py.contains c s = true <-> 1 <= occurrences c s.
Proof.
  induction s as [|d s IH]; simpl.
  - split; [discriminate | lia].
  - destruct (Ascii.eqb d c); simpl; [split; [lia | reflexivity]|].
    exact IH.
Qed.

(** The test of [create_table] on a definition [name TYPE] reads the
    name alone: it holds when the name is [id] or begins with [id] and a
    space. *)
Lemma startswith_id_separator p x :
  Py.startswith (p ++ " " ++ x) "id " =
  String.eqb p "id" || Py.startswith p "id ".
Proof.
  destruct p as [|a [|b [|c p]]]; simpl.
  - reflexivity.
  - destruct (Ascii.eqb a "i"); reflexivity.
  - destruct (Ascii.eqb a "i"); simpl; [|reflexivity].
    destruct (Ascii.eqb b "d"); reflexivity.
  - destruct (Ascii.eqb a "i"); simpl; [|reflexivity].
    destruct (Ascii.eqb b "d"); simpl; [|reflexivity].
    destruct (Ascii.eqb c " "); reflexivity.
Qed.

Lemma declares_id_column_of col_def :
  Py.contains ":"%char col_def = true ->
  declares_id (column_of col_def) = id_like (spec_name col_def).
Proof.
  intros H. destruct (contains_split_once _ _ H) as (n & t & E).
  unfold declares_id, column_of, spec_name, id_like, named_id, Py.startswith.
  rewrite E. unfold Py.lower. rewrite !map_string_app. simpl.
  change (String " " (Py.map_string Py.lower_char (Py.upper t)))
    with (" " ++ Py.map_string Py.lower_char (Py.upper t))%string.
  apply startswith_id_separator.
Qed.






Lemma string_app_assoc (a b c : string) :
  ((a ++ b) ++ c = a ++ (b ++ c))%string.
Proof. induction a as [|x a IH]; simpl; [reflexivity | now rewrite IH]. Qed.

Lemma string_app_nil (a : string) : (a ++ "" = a)%string.
Proof. induction a as [|x a IH]; simpl; [reflexivity | now rewrite IH]. Qed.








(** ** The schema codec *)

Lemma parse_schema_inr schema : forall acc columns,
  parse_schema schema acc = inr columns ->
  columns = acc ++ map column_of schema /\ Forall has_colon schema.
Proof.
  induction schema as [|d rest IH]; simpl; intros acc columns H.
  - inversion H. rewrite app_nil_r. auto.
  - destruct (Py.contains ":"%char d) eqn:C; simpl in H; [|discriminate].
    destruct (contains_split_once _ _ C) as (n & t & E).
    unfold Py.split1 in H. rewrite E in H.
    destruct (IH _ _ H) as [-> F]. split.
    + unfold column_of at 2. rewrite E. now rewrite <- app_assoc.
    + constructor; assumption.
Qed.

Lemma parse_schema_ok schema : forall acc,
  Forall has_colon schema ->
  parse_schema schema acc = inr (acc ++ map column_of schema).
Proof.
  induction schema as [|d rest IH]; simpl; intros acc F.
  - now rewrite app_nil_r.
  - inversion F as [|? ? C F']; subst. unfold has_colon in C. rewrite C. simpl.
    destruct (contains_split_once _ _ C) as (n & t & E).
    unfold Py.split1. rewrite E, (IH _ F'). unfold column_of at 2.
    rewrite E. now rewrite <- app_assoc.
Qed.

Lemma parse_schema_refuses schema : forall acc col_def,
  find (fun s => negb (Py.contains ":"%char s)) schema = Some col_def ->
  parse_schema schema acc
  = inl (ValueError (Text (invalid_schema_format col_def))).
Proof.
  induction schema as [|d rest IH]; simpl; intros acc col_def H; [discriminate|].
  destruct (Py.contains ":"%char d) eqn:C; simpl in *.
  - destruct (contains_split_once _ _ C) as (n & t & E).
    unfold Py.split1. rewrite E. now apply IH.
  - now inversion H.
Qed.

Lemma find_none_has_colon schema :
  find (fun s => negb (Py.contains ":"%char s)) schema = None ->
  Forall has_colon schema.
Proof.
  induction schema as [|d rest IH]; simpl; intros H; [constructor|].
  destruct (Py.contains ":"%char d) eqn:C; simpl in H; [|discriminate].
  constructor; auto.
Qed.

Lemma existsb_declares schema :
  Forall has_colon schema ->
  existsb declares_id (map column_of schema)
  = existsb (fun s => id_like (spec_name s)) schema.
Proof.
  induction 1 as [|d rest C F IH]; simpl; [reflexivity|].
  now rewrite declares_id_column_of, IH.
Qed.

Lemma count_id_columns schema :
  Forall has_colon schema ->
  count_id (map column_of schema)
  = List.length (filter (fun s => id_like (spec_name s)) schema).
Proof.
  unfold count_id. induction 1 as [|d rest C F IH]; simpl; [reflexivity|].
  rewrite declares_id_column_of by assumption.
  destruct (id_like (spec_name d)); simpl; now rewrite IH.
Qed.

Lemma existsb_filter_length {A} (p : A -> bool) l :
  existsb p l = true <-> 1 <= List.length (filter p l).
Proof.
  induction l as [|x l IH]; simpl.
  - split; [discriminate | lia].
  - destruct (p x); simpl; [split; [lia | reflexivity] | exact IH].
Qed.

(** C1, as amended: when every spec holds a [:], the column list is the
    definitions of the specs in their order, with the synthetic [id]
    column in front of them exactly when no spec's name is [id] or begins
    with [id] and a space, in any case; it holds at least one [id]
    column, and exactly one when at most one spec supplies it. *)
Theorem schema_columns_order_and_id (schema columns : list string) :
  schema_columns schema = inr columns ->
  columns = (if existsb (fun s => id_like (spec_name s)) schema
             then [] else [id_column]) ++ map column_of schema
  /\ 1 <= count_id columns
  /\ (count_id columns = 1 <->
      List.length (filter (fun s => id_like (spec_name s)) schema) <= 1).
Proof.
  unfold schema_columns. intros H.
  destruct (parse_schema schema []) as [e|cols] eqn:P; [discriminate|].
  destruct (parse_schema_inr _ _ _ P) as [-> F]. simpl in H.
  rewrite existsb_declares in H by assumption.
  pose proof (count_id_columns schema F) as CN.
  pose proof (existsb_filter_length (fun s => id_like (spec_name s)) schema) as EX.
  destruct (existsb (fun s => id_like (spec_name s)) schema) eqn:E;
    simpl in H; inversion H; subst; clear H; simpl.
  - rewrite CN. split; [reflexivity|]. split; [now apply EX|]. lia.
  - split; [reflexivity|]. unfold count_id in *. simpl. rewrite CN.
    assert (List.length (filter (fun s => id_like (spec_name s)) schema) = 0).
    { destruct (List.length (filter (fun s => id_like (spec_name s)) schema)) eqn:L;
        [reflexivity|]. assert (false = true) by (apply EX; lia). discriminate. }
    lia.
Qed.

Lemma schema_columns_order_and_id_witness :
  schema_columns ["name:TEXT"; "age:integer"]
  = inr [id_column; "name TEXT"; "age INTEGER"]
  /\ count_id [id_column; "name TEXT"; "age INTEGER"] = 1.
Proof.
  assert (H : schema_columns ["name:TEXT"; "age:integer"]
              = inr [id_column; "name TEXT"; "age INTEGER"]) by reflexivity.
  split; [exact H|].
  destruct (schema_columns_order_and_id _ _ H) as (_ & _ & Hone).
  apply Hone. simpl. lia.
Defined.

(** C1 as worded fails twice: two specs named [id] give two [id]
    columns, and a spec named [id x] stops the synthetic column though
    its whole name is not [id]. *)
Lemma stated_one_id_fails :
  ~ stated_one_id ["id:INTEGER"; "id:TEXT"] /\ ~ stated_one_id ["id x:TEXT"].
Proof.
  split; intros H.
  - destruct (H ["id INTEGER"; "id TEXT"] eq_refl) as (_ & _ & C).
    discriminate C.
  - destruct (H ["id x TEXT"] eq_refl) as (_ & P & _).
    specialize (P eq_refl). discriminate P.
Qed.

(** C5, as amended: a schema with a spec that holds no [:] makes
    [create_table] raise the [ValueError] that quotes the first such
    spec, before any statement runs; a schema whose specs all hold a [:]
    is accepted, each spec being cut at its first [:], so that further
    colons stay in the type. *)
Theorem create_table_needs_colon (R : rules) (table : string)
  (schema : list string) (db : database) :
  match find (fun s => negb (Py.contains ":"%char s)) schema with
  | Some col_def =>
      DBManager.create_table R table schema db
      = (inl (ValueError (Text ("Invalid schema format '" ++ col_def
                                 ++ "'. Use 'column:TYPE'"))), db)
  | None =>
      (exists synthetic,
         schema_columns schema = inr (synthetic ++ map column_of schema))
      /\ Forall (fun s => exists n t,
                   s = (n ++ ":" ++ t)%string
                   /\ Py.contains ":"%char n = false
                   /\ column_of s = (n ++ " " ++ Py.upper t)%string) schema
  end.
Proof.
  destruct (find (fun s => negb (Py.contains ":"%char s)) schema) as [d|] eqn:F.
  - unfold DBManager.create_table, schema_columns.
    now rewrite (parse_schema_refuses _ [] _ F).
  - pose proof (find_none_has_colon _ F) as H. split.
    + unfold schema_columns. rewrite (parse_schema_ok _ [] H). simpl.
      destruct (existsb declares_id (map column_of schema)); simpl.
      * now exists [].
      * now exists [id_column].
    + eapply Forall_impl; [|exact H]. intros s C.
      destruct (contains_split_once _ _ C) as (n & t & E).
      destruct (split_once_some _ _ _ _ E) as [-> N].
      exists n, t. repeat split; [assumption|].
      unfold column_of. now rewrite E.
Qed.

(** C5 as worded fails: a spec with two colons is accepted. *)
Lemma stated_one_colon_fails : ~ stated_one_colon ["a:TEXT DEFAULT ':'"].
Proof.
  intros H.
  destruct (H "a:TEXT DEFAULT ':'" (or_introl eq_refl)) as [m E].
  - simpl. discriminate.
  - discriminate E.
Qed.

Example two_colons_columns :
  schema_columns ["a:TEXT DEFAULT ':'"]
  = inr [id_column; "a TEXT DEFAULT ':'"].
Proof. reflexivity. Qed.

(** ** The CSV formatter *)

Lemma fold_left_append {A B} (f : A -> B) (l : list A) : forall acc,
  fold_left (fun acc x => acc ++ [f x]) l acc = acc ++ map f l.
Proof.
  induction l as [|x l IH]; simpl; intros acc.
  - now rewrite app_nil_r.
  - now rewrite IH, <- app_assoc.
Qed.

Lemma replace_doubled s :
  Py.replace Cli.dquote (Cli.chr Cli.dquote ++ Cli.chr Cli.dquote) s = doubled s.
Proof.
  unfold doubled.
  change (Cli.chr Cli.dquote ++ Cli.chr Cli.dquote)%string
    with (String Cli.dquote (String Cli.dquote "")).
  induction s as [|c s IH]; simpl; [reflexivity|].
  destruct (Ascii.eqb c Cli.dquote); simpl; now rewrite IH.
Qed.

Lemma contains_existsb c s :
  Py.contains c s = existsb (fun d => Ascii.eqb d c) (list_ascii_of_string s).
Proof.
  induction s as [|d s IH]; simpl; [reflexivity | now rewrite IH].
Qed.

Lemma quoting_test s :
  Py.contains Cli.comma s || Py.contains Cli.dquote s
  || Py.contains Cli.newline s = needs_quotes s.
Proof.
  unfold needs_quotes. rewrite !contains_existsb.
  induction (list_ascii_of_string s) as [|d l IH]; simpl; [reflexivity|].
  rewrite <- IH.
  destruct (Ascii.eqb d Cli.comma), (Ascii.eqb d Cli.dquote),
    (Ascii.eqb d Cli.newline); simpl; try reflexivity;
    repeat match goal with
           | |- context [existsb ?p ?l] => destruct (existsb p l); simpl
           end; reflexivity.
Qed.




Example format_csv_sample :
  Cli.format_csv [[VInt 1; VText "a,b"; VNull]; [VInt 2; VText "c"; VText "d"]]
    ["id"; "x"; "y"]
  = ("id,x,y" ++ Cli.chr Cli.newline
     ++ "1," ++ Cli.chr Cli.dquote ++ "a,b" ++ Cli.chr Cli.dquote ++ ","
     ++ Cli.chr Cli.newline ++ "2,c,d")%string.
Proof. reflexivity. Qed.

(** ** The choice of the operation *)

(** C10: when the command line asks for nothing but a deletion, [-d 0]
    ends in "No operation specified" and the row is not deleted, while
    [-d k] with any other [k] reaches the branch that calls
    [db.delete(args.table, k)]. *)
Theorem delete_zero_is_no_operation (a : Cli.args) :
  Cli.dispatch (with_delete a None) = Cli.ErrorNoOperation ->
  Cli.dispatch (with_delete a (Some 0%Z)) = Cli.ErrorNoOperation
  /\ forall k : Z, k <> 0%Z ->
       Cli.dispatch (with_delete a (Some k)) = Cli.Delete k.
Proof.
  unfold Cli.dispatch, Cli.positional, with_delete. simpl.
  intros H.
  repeat match type of H with
         | context [if ?b then _ else _] =>
             destruct b eqn:?; try discriminate H
         | context [match ?x with Some _ => _ | None => _ end] =>
             destruct x eqn:?; try discriminate H
         end.
  split; [reflexivity|].
  intros k Hk. destruct (Z.eqb_spec k 0); [contradiction | reflexivity].
Qed.

Lemma delete_zero_is_no_operation_witness :
  Cli.dispatch (only_delete (Some 0%Z)) = Cli.ErrorNoOperation
  /\ Cli.dispatch (only_delete (Some 7%Z)) = Cli.Delete 7.
Proof.
  destruct (delete_zero_is_no_operation (only_delete None) eq_refl) as [Z0 NZ].
  split; [exact Z0 | apply (NZ 7%Z); discriminate].
Defined.

(** The branch runs [db.delete] on the table and the id of the command
    line, and reports its count. *)
Lemma delete_row_runs_delete R table row_id db :
  Cli.final (Cli.delete_row R table row_id db)
  = snd (DBManager.delete R table row_id db)
  /\ forall count db',
       DBManager.delete R table row_id db = (inr count, db') ->
       Cli.status (Cli.delete_row R table row_id db) = inr 0
       /\ Cli.stdout (Cli.delete_row R table row_id db)
          = [if (count =? 0)%nat
             then ("No row with id=" ++ Py.str_int row_id ++ " found")%string
             else ("✓ Deleted row id=" ++ Py.str_int row_id)%string].
Proof.
  unfold Cli.delete_row.
  destruct (DBManager.delete R table row_id db) as [[e|count] db'].
  - split; [now destruct e|]. discriminate.
  - split; [reflexivity|]. intros c d H. inversion H; subst. now split.
Qed.

(** ** The catalogue *)

Lemma name_eqb_eq a b : name_eqb a b = true <-> Py.lower a = Py.lower b.
Proof. unfold name_eqb. apply String.eqb_eq. Qed.

Lemma name_eqb_refl a : name_eqb a a = true.
Proof. now apply name_eqb_eq. Qed.

Lemma name_eqb_sym a b : name_eqb a b = name_eqb b a.
Proof. unfold name_eqb. apply String.eqb_sym. Qed.

Lemma name_eqb_trans_false a b c :
  name_eqb a c = false -> name_eqb b c = true -> name_eqb a b = false.
Proof.
  intros H1 H2. apply name_eqb_eq in H2.
  destruct (name_eqb a b) eqn:E; [|reflexivity].
  apply name_eqb_eq in E. rewrite <- H1. symmetry. apply name_eqb_eq.
  congruence.
Qed.


Lemma find_put_table db table t t' :
  find_table db table = Some t -> tname t' = tname t ->
  find_table (put_table db t') table = Some t'.
Proof.
  unfold find_table. intros H N.
  induction db as [|x db IH]; simpl in *; [discriminate|].
  rewrite N. destruct (name_eqb (tname x) table) eqn:E.
  - inversion H; subst x. rewrite name_eqb_refl. simpl.
    now rewrite N, E.
  - specialize (IH H). pose proof (find_some _ _ H) as [_ Ht].
    rewrite (name_eqb_trans_false _ _ _ E Ht). simpl. now rewrite E.
Qed.



Lemma resolve_inr R db table t :
  resolve R db table = inr t ->
  is_name R table = true /\ find_table db table = Some t.
Proof.
  unfold resolve. destruct (is_name R table); simpl; [|discriminate].
  destruct (find_table db table); [|discriminate].
  intros H. inversion H. auto.
Qed.

Lemma resolve_found R db table t :
  is_name R table = true -> find_table db table = Some t ->
  resolve R db table = inr t.
Proof. unfold resolve. now intros -> ->. Qed.

Lemma visible_some R db table t :
  visible R db table = Some t ->
  is_name R table = true /\ find_table db table = Some t /\ tcols t <> [].
Proof.
  unfold visible. destruct (is_name R table); [|discriminate].
  destruct (find_table db table) as [t'|]; [|discriminate].
  destruct (tcols t') eqn:E; [discriminate|].
  intros H. inversion H; subst. rewrite E. repeat split; discriminate.
Qed.



(** ** Introspection *)

Lemma describe_names_from cols : forall start,
  map name
    (filter (fun col => negb (String.eqb (name col) "id"))
       (map (fun ic : nat * column =>
               {| cid := fst ic; name := cname (snd ic); type := ctype (snd ic);
                  notnull := cnotnull (snd ic); dflt_value := cdflt (snd ic);
                  pk := is_primary (ckey (snd ic)) |})
          (combine (seq start (List.length cols)) cols)))
  = map cname (filter (fun c => negb (String.eqb (cname c) "id")) cols).
Proof.
  induction cols as [|c cols IH]; simpl; intros start; [reflexivity|].
  destruct (String.eqb (cname c) "id"); simpl; now rewrite IH.
Qed.

Lemma value_columns_describe t :
  DBManager.value_columns (describe (tcols t)) = map cname (value_cols t).
Proof. apply describe_names_from. Qed.

Lemma describe_nil cols : describe cols = [] -> cols = [].
Proof. destruct cols; [reflexivity | discriminate]. Qed.

(** What [table_info] answers, by the table the name reaches. *)
Lemma table_info_visible R table db :
  match visible R db table with
  | Some t =>
      DBManager.table_info R table db = (inr (Some (describe (tcols t))), db)
      /\ DBManager.no_info (Some (describe (tcols t))) = false
  | None =>
      exists i, DBManager.table_info R table db = (inr i, db)
                /\ DBManager.no_info i = true
  end.
Proof.
  unfold visible, DBManager.table_info, execute.
  destruct (is_name R table); simpl.
  - destruct (find_table db table) as [t|]; simpl.
    + destruct (tcols t) as [|c cols] eqn:E; simpl.
      * now exists (Some []).
      * rewrite E. now split.
    + now exists (Some []).
  - now exists None.
Qed.




(** ** Deleting and selecting by id *)

Lemma id_of_with_rows t rows sq : id_of (with_rows t rows sq) = id_of t.
Proof. reflexivity. Qed.


(** ** Validation in [insert] and [update] *)

Lemma insert_visible R table values db t :
  visible R db table = Some t ->
  DBManager.insert R table values db
  = if negb (List.length values =? List.length (value_cols t))%nat
    then (inl (ValueError
                 (Expected (List.length (value_cols t))
                    (map cname (value_cols t)) (List.length values))), db)
    else DBManager.try_execute R
           (InsertInto table (map cname (value_cols t)) (map VText values))
           "Error inserting row" lastrowid db.
Proof.
  intros V. pose proof (table_info_visible R table db) as H.
  rewrite V in H. destruct H as [H N].
  unfold DBManager.insert, DBManager.bind. rewrite H, N. simpl.
  rewrite value_columns_describe, length_map.
  now destruct (List.length values =? List.length (value_cols t))%nat.
Qed.

Lemma update_visible R table row_id values db t :
  visible R db table = Some t ->
  DBManager.update R table row_id values db
  = if negb (List.length values =? List.length (value_cols t))%nat
    then (inl (ValueError
                 (Expected (List.length (value_cols t))
                    (map cname (value_cols t)) (List.length values))), db)
    else DBManager.try_execute R
           (UpdateWhereId table (map cname (value_cols t)) (map VText values)
              row_id)
           "Error updating row" rowcount db.
Proof.
  intros V. pose proof (table_info_visible R table db) as H.
  rewrite V in H. destruct H as [H N].
  unfold DBManager.update, DBManager.bind. rewrite H, N. simpl.
  rewrite value_columns_describe, length_map.
  now destruct (List.length values =? List.length (value_cols t))%nat.
Qed.

Lemma insert_invisible R table values db :
  visible R db table = None ->
  DBManager.insert R table values db
  = (inl (ValueError (Text ("Table '" ++ table
            ++ "' does not exist. Create it first with --schema"))), db).
Proof.
  intros V. pose proof (table_info_visible R table db) as H.
  rewrite V in H. destruct H as (i & H & N).
  unfold DBManager.insert, DBManager.bind. now rewrite H, N.
Qed.

Lemma update_invisible R table row_id values db :
  visible R db table = None ->
  DBManager.update R table row_id values db
  = (inl (ValueError (Text ("Table '" ++ table ++ "' does not exist"))), db).
Proof.
  intros V. pose proof (table_info_visible R table db) as H.
  rewrite V in H. destruct H as (i & H & N).
  unfold DBManager.update, DBManager.bind. now rewrite H, N.
Qed.


(** ** Updating *)









(** ** Inserting *)

Lemma Forall2_impl_in {A B} (P Q : A -> B -> Prop) l l' :
  Forall2 P l l' ->
  (forall a b, In a l -> P a b -> Q a b) ->
  Forall2 Q l l'.
Proof.
  induction 1 as [|a b l l' H F IH]; intros I; constructor.
  - apply I; [now left | assumption].
  - apply IH. intros a' b' Ha. apply I. now right.
Qed.

Lemma distinct_names_filter p cols :
  distinct_names cols = true -> distinct_names (filter p cols) = true.
Proof.
  induction cols as [|c cols IH]; simpl; intros H; [reflexivity|].
  apply andb_prop in H as [H1 H2].
  destruct (p c); simpl; [|now apply IH].
  rewrite (IH H2), andb_true_r.
  apply negb_true_iff in H1. apply negb_true_iff.
  unfold has_column in *.
  destruct (existsb (fun c0 => name_eqb (cname c0) (cname c)) (filter p cols))
    eqn:E; [|reflexivity].
  apply existsb_exists in E as (c' & Hc' & Hn).
  apply filter_In in Hc' as [Hc' _].
  rewrite <- H1. symmetry. apply existsb_exists. now exists c'.
Qed.

(** With distinct names, the i-th value is the one bound to the i-th
    column of the list. *)
Lemma bound_positional (cols : list column) : forall (vals : list value),
  distinct_names cols = true ->
  List.length vals = List.length cols ->
  Forall2 (fun c v => bound (map cname cols) vals (cname c) = Some v)
    cols vals.
Proof.
  induction cols as [|c cols IH]; intros [|v vals] D L; simpl in *;
    try discriminate; constructor.
  - now rewrite name_eqb_refl.
  - apply andb_prop in D as [D1 D2].
    apply Forall2_impl_in
      with (P := fun c v => bound (map cname cols) vals (cname c) = Some v).
    + apply IH; [assumption | now inversion L].
    + intros c' v' Hin Hb.
      assert (name_eqb (cname c) (cname c') = false) as ->; [|assumption].
      rewrite name_eqb_sym. apply negb_true_iff in D1.
      destruct (name_eqb (cname c') (cname c)) eqn:E; [|reflexivity].
      rewrite <- D1. symmetry. apply existsb_exists. now exists c'.
Qed.

Lemma Forall2_map_right {A B} (f : A -> B) l :
  Forall2 (fun a b => b = f a) l (map f l).
Proof. induction l; simpl; constructor; auto. Qed.

Lemma set_nth_at_index {A B} (p : A -> bool) (f : A -> B) (x : B) l :
  forall i, index_of p l = Some i ->
  Forall2 (fun a b => b = f a \/ (p a = true /\ b = x)) l
    (set_nth i x (map f l)).
Proof.
  induction l as [|a l IH]; simpl; intros i H; [discriminate|].
  destruct (p a) eqn:E.
  - inversion H; subst. simpl. constructor; [now right|].
    eapply Forall2_impl; [|apply Forall2_map_right]. simpl. auto.
  - destruct (index_of p l) as [j|]; [|discriminate]. inversion H; subst.
    simpl. constructor; [now left|]. now apply IH.
Qed.

(** The cells of the row [INSERT] builds: each is the value written to
    its column, but for the INTEGER PRIMARY KEY column, which holds the
    row id. *)
Lemma new_row_cells R t columns values r :
  new_row R t columns values = inr r ->
  Forall2 (fun c cell => cell = written R columns values c
                         \/ (is_rowid (ckey c) = true /\ cell = VInt (rowid r)))
    (tcols t) (cells r).
Proof.
  unfold new_row, new_cells, rowid_position.
  change (fun c => match bound columns values (cname c) with
                   | Some v => affinity R (ctype c) v
                   | None => cdflt c
                   end) with (written R columns values).
  destruct (index_of (fun c => is_rowid (ckey c)) (tcols t)) as [i|] eqn:I.
  - destruct (nth i (map (written R columns values) (tcols t)) VNull) eqn:N;
      intros H; inversion H; subst; simpl.
    + now apply (set_nth_at_index (fun c => is_rowid (ckey c))).
    + eapply Forall2_impl; [|apply Forall2_map_right]. simpl. auto.
  - intros H; inversion H; subst; simpl.
    eapply Forall2_impl; [|apply Forall2_map_right]. simpl. auto.
Qed.

Lemma execute_insert_inr R table columns values db cur db' :
  execute R (InsertInto table columns values) db = inr (cur, db') ->
  exists t r,
    resolve R db table = inr t
    /\ new_row R t columns values = inr r
    /\ lastrowid cur = rowid r
    /\ db' = put_table db
               (with_rows t (trows t ++ [r]) (Z.max (tseq t) (rowid r))).
Proof.
  unfold execute.
  destruct (resolve R db table) as [e|t] eqn:Hr; [discriminate|].
  destruct (check_columns R t columns values _); [discriminate|].
  destruct (new_row R t columns values) as [e|r] eqn:Hn; [discriminate|].
  destruct (accepts (tcols t) (trows t) r); [|discriminate].
  intros H. inversion H; subst. exists t, r. repeat split; assumption.
Qed.




Example insert_refused :
  DBManager.insert Demo.rules "u" ["a@x"] emails
  = (inl (RuntimeError (Engine "Error inserting row"
                          (IntegrityError "constraint failed"))), emails).
Proof. reflexivity. Qed.

Example insert_scenario :
  DBManager.insert Demo.rules "users" ["Alice"; "30"] users_empty
  = (inr 1%Z, users_alice)
  /\ DBManager.insert Demo.rules "users" ["Bob"] users_alice
     = (inl (ValueError (Expected 2 ["name"; "age"] 1)), users_alice)
  /\ DBManager.select Demo.rules "users" None users_alice
     = (inr [[VInt 1; VText "Alice"; VInt 30]], users_alice).
Proof. repeat split; reflexivity. Qed.

(** ** Selecting by id *)


Lemma id_is_rowid R c i k rows :
  Forall (fun r => nth i (cells r) VNull = VInt (rowid r)) rows ->
  filter (id_is R c i k) rows = filter (fun r => Z.eqb (rowid r) k) rows.
Proof.
  induction 1 as [|r rows H F IH]; simpl; [reflexivity|].
  unfold id_is at 1. rewrite H, IH. reflexivity.
Qed.

Lemma find_table_in db table t : find_table db table = Some t -> In t db.
Proof. intros H. now apply find_some in H. Qed.



Example caller_id_is_kept :
  schema_columns ["id:INTEGER DEFAULT 5"; "name:TEXT"]
  = inr ["id INTEGER DEFAULT 5"; "name TEXT"].
Proof. reflexivity. Qed.

(** ** The row ids of a keyed table stay distinct *)

Lemma Forall_put_table (P : stored_table -> Prop) db t' :
  Forall P db -> P t' -> Forall P (put_table db t').
Proof.
  induction 1 as [|x db Hx F IH]; simpl; intros Ht; [constructor|].
  destruct (name_eqb (tname x) (tname t')); constructor; auto.
Qed.

Lemma index_of_lt {A} (p : A -> bool) l : forall i,
  index_of p l = Some i -> i < List.length l.
Proof.
  induction l as [|x l IH]; simpl; intros i H; [discriminate|].
  destruct (p x); [inversion H; lia|].
  destruct (index_of p l) as [j|]; [|discriminate].
  inversion H; subst. specialize (IH j eq_refl). lia.
Qed.

Lemma nth_set_nth {A} (x d : A) l : forall i,
  i < List.length l -> nth i (set_nth i x l) d = x.
Proof.
  induction l as [|y l IH]; simpl; intros i H; [lia|].
  destruct i; simpl; [reflexivity|]. apply IH. lia.
Qed.

Lemma accepts_fresh cols others r :
  accepts cols others r = true -> ~ In (rowid r) (map rowid others).
Proof.
  unfold accepts. intros H. apply andb_prop in H as [H _].
  apply negb_true_iff in H. intros I.
  apply in_map_iff in I as (o & E & Ho).
  assert (existsb (fun o => Z.eqb (rowid o) (rowid r)) others = true).
  { apply existsb_exists. exists o. split; [assumption|]. now apply Z.eqb_eq. }
  congruence.
Qed.

Lemma new_row_key R t columns values r i :
  new_row R t columns values = inr r ->
  rowid_position (tcols t) = Some i ->
  nth i (cells r) VNull = VInt (rowid r).
Proof.
  unfold new_row. intros H P. rewrite P in H.
  destruct (nth i (new_cells R t columns values) VNull) eqn:N;
    inversion H; subst; simpl; [|assumption].
  apply nth_set_nth. unfold new_cells. rewrite length_map.
  now apply index_of_lt with (p := fun c => is_rowid (ckey c)).
Qed.

Lemma set_row_key R t columns values r r' i :
  set_row R t columns values r = inr r' ->
  rowid_position (tcols t) = Some i ->
  nth i (cells r') VNull = VInt (rowid r').
Proof.
  unfold set_row. intros H P. rewrite P in H.
  match type of H with
  | context [nth i ?l VNull] => destruct (nth i l VNull) eqn:N
  end; inversion H; subst; simpl; assumption.
Qed.

Lemma NoDup_map_filter {A B} (f : A -> B) p l :
  NoDup (map f l) -> NoDup (map f (filter p l)).
Proof.
  induction l as [|x l IH]; simpl; intros N; [constructor|].
  inversion N as [|? ? NI N']; subst.
  destruct (p x); simpl; [|auto]. constructor; [|auto].
  intros I. apply NI. apply in_map_iff in I as (y & E & Hy).
  apply filter_In in Hy as [Hy _]. rewrite <- E. now apply in_map.
Qed.

Lemma Forall_filter_keep {A} (P : A -> Prop) p l :
  Forall P l -> Forall P (filter p l).
Proof.
  induction 1 as [|x l H F IH]; simpl; [constructor|].
  destruct (p x); [constructor|]; auto.
Qed.

Lemma set_rows_keys R t columns values hit i rows : forall out,
  set_rows R t columns values hit rows = inr out ->
  rowid_position (tcols t) = Some i ->
  Forall (fun r => nth i (cells r) VNull = VInt (rowid r)) rows ->
  Forall (fun r => nth i (cells r) VNull = VInt (rowid r)) (map snd out)
  /\ map snd (filter (fun o : bool * row => negb (fst o)) out)
     = filter (fun r => negb (hit r)) rows.
Proof.
  induction rows as [|r rows IH]; simpl; intros out H P F.
  - inversion H; subst. simpl. auto.
  - inversion F as [|? ? Fr F']; subst.
    destruct (hit r) eqn:Hh.
    + destruct (set_row R t columns values r) as [e|r'] eqn:S; [discriminate|].
      destruct (set_rows R t columns values hit rows) as [e|out'] eqn:SR;
        [discriminate|].
      inversion H; subst. destruct (IH _ eq_refl P F') as [K U]. simpl. split.
      * constructor; [|assumption]. eapply set_row_key; eassumption.
      * assumption.
    + destruct (set_rows R t columns values hit rows) as [e|out'] eqn:SR;
        [discriminate|].
      inversion H; subst. destruct (IH _ eq_refl P F') as [K U]. simpl. split.
      * constructor; assumption.
      * now rewrite U.
Qed.

Lemma accepted_all_distinct cols out : forall before,
  accepted_all cols before out = true ->
  NoDup (map rowid before) ->
  NoDup (map rowid (map snd (filter (fun o : bool * row => negb (fst o)) out))) ->
  (forall u, In u (map snd (filter (fun o : bool * row => negb (fst o)) out)) ->
             ~ In (rowid u) (map rowid before)) ->
  NoDup (map rowid (before ++ map snd out)).
Proof.
  induction out as [|[m r] out IH]; simpl; intros before A NB NU D.
  - now rewrite app_nil_r.
  - apply andb_prop in A as [A1 A2].
    replace (before ++ r :: map snd out)
      with ((before ++ [r]) ++ map snd out) by now rewrite <- app_assoc.
    destruct m; simpl in *.
    + pose proof (accepts_fresh _ _ _ A1) as Fr.
      rewrite map_app, in_app_iff in Fr.
      apply IH; [assumption | | assumption |].
      * rewrite map_app. simpl. apply NoDup_app; [assumption | | ].
        -- constructor; [intros []|constructor].
        -- intros x Hx [<-|[]]. apply Fr. now left.
      * intros u Hu. rewrite map_app, in_app_iff. simpl.
        intros [I|[E|[]]]; [now apply (D u)|].
        apply Fr. right. rewrite E. apply in_map.
        apply in_map_iff in Hu as (o & <- & Ho).
        apply filter_In in Ho as [Ho _]. now apply in_map.
    + inversion NU as [|? ? NI NU']; subst.
      apply IH; [assumption | | assumption |].
      * rewrite map_app. simpl. apply NoDup_app; [assumption | | ].
        -- constructor; [intros []|constructor].
        -- intros x Hx [<-|[]]. apply (D r); [now left | assumption].
      * intros u Hu. rewrite map_app, in_app_iff. simpl.
        intros [I|[E|[]]]; [apply (D u); auto|].
        apply NI. rewrite E. now apply in_map.
Qed.

Lemma keyed_insert R t columns values r sq i :
  new_row R t columns values = inr r ->
  accepts (tcols t) (trows t) r = true ->
  rowid_position (tcols t) = Some i ->
  keyed t i ->
  keyed (with_rows t (trows t ++ [r]) sq) i.
Proof.
  intros N A P [ND F]. unfold keyed. simpl. split.
  - rewrite map_app. simpl. apply NoDup_app; [assumption | | ].
    + constructor; [intros []|constructor].
    + intros x Hx [<-|[]]. exact (accepts_fresh _ _ _ A Hx).
  - apply Forall_app. split; [assumption|].
    constructor; [|constructor]. eapply new_row_key; eassumption.
Qed.

Lemma keyed_delete t p i :
  keyed t i -> keyed (with_rows t (filter p (trows t)) (tseq t)) i.
Proof.
  intros [ND F]. unfold keyed. simpl. split.
  - now apply NoDup_map_filter.
  - now apply Forall_filter_keep.
Qed.

Lemma keyed_update R t columns values hit out i :
  set_rows R t columns values hit (trows t) = inr out ->
  accepted_all (tcols t) [] out = true ->
  rowid_position (tcols t) = Some i ->
  keyed t i ->
  keyed (with_rows t (map snd out) (tseq t)) i.
Proof.
  intros S A P [ND F]. unfold keyed. simpl.
  destruct (set_rows_keys _ _ _ _ _ _ _ _ S P F) as [K U]. split; [|assumption].
  apply (accepted_all_distinct (tcols t) out [] A).
  - constructor.
  - rewrite U. now apply NoDup_map_filter.
  - intros u _ [].
Qed.

Lemma keyed_of_catalogue db table t :
  catalogue_keyed db -> find_table db table = Some t ->
  forall i, rowid_position (tcols t) = Some i -> keyed t i.
Proof.
  unfold catalogue_keyed. rewrite Forall_forall. intros K H.
  apply K. now apply find_table_in with (table := table).
Qed.

(** The empty catalogue is keyed and every statement keeps a catalogue
    keyed: the row ids of an INTEGER PRIMARY KEY column are distinct in
    every catalogue the manager can reach. *)
Lemma empty_catalogue_keyed : catalogue_keyed [].
Proof. constructor. Qed.

Lemma execute_keeps_keyed R s db cur db' :
  execute R s db = inr (cur, db') ->
  catalogue_keyed db -> catalogue_keyed db'.
Proof.
  intros X K. destruct s as [table|table columns|table columns values|table
                            |table k|table columns values k|table k|table];
    unfold execute in X.
  - destruct (is_name R table); simpl in X; [|discriminate].
    destruct (find_table db table); inversion X; subst; assumption.
  - destruct (is_name R table); simpl in X; [|discriminate].
    destruct (find_table db table); [inversion X; subst; assumption|].
    destruct (read_columns R columns) as [[|c cols]|]; try discriminate.
    destruct (distinct_names (c :: cols)); cbn [negb] in X; [|discriminate].
    destruct (1 <? List.length
                     (filter (fun c0 => is_primary (ckey c0)) (c :: cols)))%nat;
      [discriminate|].
    inversion X; subst. apply Forall_app. split; [assumption|].
    constructor; [|constructor]. intros i _. split; constructor.
  - destruct (resolve R db table) as [e|t] eqn:Hr; [discriminate|].
    destruct (check_columns R t columns values _); [discriminate|].
    destruct (new_row R t columns values) as [e|r] eqn:N; [discriminate|].
    destruct (accepts (tcols t) (trows t) r) eqn:A; [|discriminate].
    inversion X; subst. destruct (resolve_inr _ _ _ _ Hr) as [_ Hf].
    apply Forall_put_table; [assumption|]. intros i P.
    eapply keyed_insert; try eassumption.
    exact (keyed_of_catalogue _ _ _ K Hf i P).
  - destruct (resolve R db table); inversion X; subst; assumption.
  - destruct (resolve R db table) as [e|t]; [discriminate|].
    destruct (resolve_id t) as [e|[i c]]; inversion X; subst; assumption.
  - destruct (resolve R db table) as [e|t] eqn:Hr; [discriminate|].
    destruct (check_columns R t columns values _); [discriminate|].
    destruct (resolve_id t) as [e|[i c]]; [discriminate|].
    destruct (set_rows R t columns values (id_is R c i k) (trows t))
      as [e|out] eqn:S; [discriminate|].
    destruct (accepted_all (tcols t) [] out) eqn:A; [|discriminate].
    inversion X; subst. destruct (resolve_inr _ _ _ _ Hr) as [_ Hf].
    apply Forall_put_table; [assumption|]. intros j P.
    eapply keyed_update; try eassumption.
    exact (keyed_of_catalogue _ _ _ K Hf j P).
  - destruct (resolve R db table) as [e|t] eqn:Hr; [discriminate|].
    destruct (resolve_id t) as [e|[i c]]; [discriminate|].
    inversion X; subst. destruct (resolve_inr _ _ _ _ Hr) as [_ Hf].
    apply Forall_put_table; [assumption|]. intros j P.
    apply keyed_delete. exact (keyed_of_catalogue _ _ _ K Hf j P).
  - destruct (is_name R table); simpl in X; [|discriminate].
    inversion X; subst. unfold drop_table. now apply Forall_filter_keep.
Qed.

Lemma try_execute_keeps_keyed {A} R s what (f : cursor -> A) db res db' :
  DBManager.try_execute R s what f db = (res, db') ->
  catalogue_keyed db -> catalogue_keyed db'.
Proof.
  unfold DBManager.try_execute.
  destruct (execute R s db) as [e|[cur d]] eqn:X; intros H K;
    inversion H; subst; [assumption|].
  exact (execute_keeps_keyed _ _ _ _ _ X K).
Qed.

(** So does every method of the manager. *)
Lemma manager_keeps_keyed R table row_id values schema db :
  catalogue_keyed db ->
  catalogue_keyed (snd (DBManager.create_table R table schema db))
  /\ catalogue_keyed (snd (DBManager.insert R table values db))
  /\ catalogue_keyed (snd (DBManager.update R table row_id values db))
  /\ catalogue_keyed (snd (DBManager.delete R table row_id db))
  /\ catalogue_keyed (snd (DBManager.drop_table R table db)).
Proof.
  intros K.
  assert (T : forall A s what (f : cursor -> A),
            catalogue_keyed (snd (DBManager.try_execute R s what f db))).
  { intros A s what f.
    destruct (DBManager.try_execute R s what f db) as [res d] eqn:E.
    exact (try_execute_keeps_keyed _ _ _ _ _ _ _ E K). }
  repeat split.
  - unfold DBManager.create_table.
    destruct (schema_columns schema); [exact K | apply T].
  - destruct (visible R db table) as [t|] eqn:V.
    + rewrite (insert_visible _ _ _ _ _ V).
      destruct (negb (List.length values =? List.length (value_cols t))%nat);
        [exact K | apply T].
    + now rewrite (insert_invisible _ _ _ _ V).
  - destruct (visible R db table) as [t|] eqn:V.
    + rewrite (update_visible _ _ _ _ _ _ V).
      destruct (negb (List.length values =? List.length (value_cols t))%nat);
        [exact K | apply T].
    + now rewrite (update_invisible _ _ _ _ _ V).
  - apply T.
  - apply T.
Qed.



Example select_by_key_sample :
  DBManager.select Demo.rules "users" (Some 1%Z) users_alice
  = (inr [[VInt 1; VText "Alice"; VInt 30]], users_alice)
  /\ DBManager.select Demo.rules "users" (Some 2%Z) users_alice
     = (inr [], users_alice).
Proof. split; reflexivity. Qed.
(** ** The scenario of the specification, through the theorems *)




(** ** Bulk import *)












(** ** The sample catalogues *)

Example users_alice_content :
  users_alice
  = [{| tname := "users";
        tcols := [{| cname := "id"; ctype := "INTEGER"; cnotnull := false;
                     cdflt := VNull; ckey := Rowid true |};
                  {| cname := "name"; ctype := "TEXT"; cnotnull := false;
                     cdflt := VNull; ckey := Plain |};
                  {| cname := "age"; ctype := "INTEGER"; cnotnull := false;
                     cdflt := VNull; ckey := Plain |}];
        trows := [{| rowid := 1;
                     cells := [VInt 1; VText "Alice"; VInt 30] |}];
        tseq := 1 |}].
Proof. reflexivity. Qed.

Example emails_content :
  emails
  = [{| tname := "u";
        tcols := [{| cname := "id"; ctype := "INTEGER"; cnotnull := false;
                     cdflt := VNull; ckey := Rowid true |};
                  {| cname := "email"; ctype := "TEXT"; cnotnull := false;
                     cdflt := VNull; ckey := Unique |}];
        trows := [{| rowid := 1; cells := [VInt 1; VText "a@x"] |}];
        tseq := 1 |}].
Proof. reflexivity. Qed.

Example shared_ids_content :
  shared_ids
  = [{| tname := "t";
        tcols := [{| cname := "id"; ctype := "INTEGER"; cnotnull := false;
                     cdflt := VInt 5; ckey := Plain |};
                  {| cname := "name"; ctype := "TEXT"; cnotnull := false;
                     cdflt := VNull; ckey := Plain |}];
        trows := [{| rowid := 1; cells := [VInt 5; VText "a"] |};
                  {| rowid := 2; cells := [VInt 5; VText "b"] |}];
        tseq := 2 |}].
Proof. reflexivity. Qed.

Example shared_ids_built :
  DBManager.create_table Demo.rules "t" ["id:INTEGER DEFAULT 5"; "name:TEXT"] []
  = (inr true,
     [{| tname := "t";
         tcols := [{| cname := "id"; ctype := "INTEGER"; cnotnull := false;
                      cdflt := VInt 5; ckey := Plain |};
                   {| cname := "name"; ctype := "TEXT"; cnotnull := false;
                      cdflt := VNull; ckey := Plain |}];
         trows := []; tseq := 0 |}])
  /\ DBManager.select Demo.rules "t" (Some 5%Z) shared_ids
     = (inr [[VInt 5; VText "a"]; [VInt 5; VText "b"]], shared_ids).
Proof. split; reflexivity. Qed.

(** * Further properties *)

(** ** Tables of the catalogue, one beside the other *)



Lemma find_table_app db db2 table :
  find_table (db ++ db2) table
  = match find_table db table with
    | Some t => Some t
    | None => find_table db2 table
    end.
Proof.
  unfold find_table. induction db as [|x db IH]; simpl; [reflexivity|].
  now destruct (name_eqb (tname x) table).
Qed.








(** ** What a method leaves alone *)









(** ** Reading back what was written *)

Lemma select_all_shown R db table t :
  resolve R db table = inr t ->
  DBManager.select R table None db = (inr (map cells (trows t)), db).
Proof.
  intros H. unfold DBManager.select, DBManager.try_execute, execute.
  now rewrite H.
Qed.

(** What a successful [insert] did. *)
Lemma insert_returned R table values db t id db' :
  visible R db table = Some t ->
  DBManager.insert R table values db = (inr id, db') ->
  exists r,
    rowid r = id
    /\ new_row R t (map cname (value_cols t)) (map VText values) = inr r
    /\ db' = put_table db
               (with_rows t (trows t ++ [r]) (Z.max (tseq t) (rowid r)))
    /\ resolve R db' table
       = inr (with_rows t (trows t ++ [r]) (Z.max (tseq t) (rowid r))).
Proof.
  intros V H. rewrite (insert_visible _ _ _ _ _ V) in H.
  destruct (negb (List.length values =? List.length (value_cols t))%nat);
    [discriminate H|].
  unfold DBManager.try_execute in H.
  destruct (execute R (InsertInto table (map cname (value_cols t))
                         (map VText values)) db) as [e|[cur d]] eqn:X;
    [discriminate H|].
  inversion H; subst.
  destruct (execute_insert_inr _ _ _ _ _ _ _ X) as (t0 & r & Hr & Hn & Hl & ->).
  destruct (visible_some _ _ _ _ V) as (Hname & Hf & _).
  rewrite (resolve_found _ _ _ _ Hname Hf) in Hr. inversion Hr; subst t0.
  exists r. repeat split; auto.
  apply resolve_found; [assumption|].
  now apply find_put_table with (t := t).
Qed.



Lemma only_row_with_key {A} (f : A -> Z) l x :
  NoDup (map f (l ++ [x])) ->
  filter (fun y => Z.eqb (f y) (f x)) (l ++ [x]) = [x].
Proof.
  induction l as [|y l IH]; simpl; intros N.
  - now rewrite Z.eqb_refl.
  - inversion N as [|? ? NI N']; subst.
    destruct (Z.eqb_spec (f y) (f x)) as [E|E]; [|now apply IH].
    exfalso. apply NI. rewrite E, map_app, in_app_iff. right. now left.
Qed.

(** X3: on a table whose column [id] is its INTEGER PRIMARY KEY, as the
    synthetic column is, [select] with the id a successful [insert]
    returned gives exactly the inserted row: its [id] cell is that id and
    every other cell is the value written to its column. *)
Theorem insert_then_select (R : rules) (table : string) (values : list string)
  (db db' : database) (t : stored_table) (i : nat) (c : column) (id : Z) :
  catalogue_keyed db ->
  visible R db table = Some t ->
  id_of t = Some (i, c) ->
  rowid_position (tcols t) = Some i ->
  DBManager.insert R table values db = (inr id, db') ->
  exists r,
    DBManager.select R table (Some id) db' = (inr [cells r], db')
    /\ nth i (cells r) VNull = VInt id
    /\ Forall2
         (fun col cell =>
            cell = written R (map cname (value_cols t)) (map VText values) col
            \/ (is_rowid (ckey col) = true /\ cell = VInt id))
         (tcols t) (cells r).
Proof.
  intros K V Hid Hp H.
  destruct (insert_returned _ _ _ _ _ _ _ V H) as (r & Hr & Hn & -> & Hres).
  pose proof (manager_keeps_keyed R table 0 values [] db K) as (_ & K' & _).
  rewrite H in K'. simpl in K'.
  destruct (resolve_inr _ _ _ _ Hres) as [_ Hf'].
  pose proof (keyed_of_catalogue _ _ _ K' Hf' i Hp) as [ND F]. simpl in ND, F.
  exists r. split; [|split].
  - unfold DBManager.select, DBManager.try_execute, execute, resolve_id.
    rewrite Hres, id_of_with_rows, Hid. simpl.
    rewrite (id_is_rowid _ _ _ _ _ F), <- Hr.
    now rewrite (only_row_with_key rowid _ _ ND).
  - rewrite <- Hr. eapply new_row_key; eassumption.
  - rewrite <- Hr. now apply new_row_cells.
Qed.

Lemma users_empty_keyed : catalogue_keyed users_empty.
Proof.
  apply (execute_keeps_keyed Demo.rules
           (CreateTableIfNotExists "users"
              [id_column; "name TEXT"; "age INTEGER"]) [] no_cursor).
  - vm_compute. reflexivity.
  - exact empty_catalogue_keyed.
Qed.

Lemma insert_then_select_witness :
  exists r,
    DBManager.select Demo.rules "users" (Some 1%Z) users_alice
    = (inr [cells r], users_alice)
    /\ nth 0 (cells r) VNull = VInt 1.
Proof.
  destruct (insert_then_select Demo.rules "users" ["Alice"; "30"]
              users_empty users_alice _ 0 _ 1 users_empty_keyed
              eq_refl eq_refl eq_refl eq_refl) as (r & S & N & _).
  exists r. split; [exact S | exact N].
Defined.

(** ** Updating and reading back *)

Lemma update_returned R table row_id values db t n db' :
  visible R db table = Some t ->
  DBManager.update R table row_id values db = (inr n, db') ->
  exists i c out,
    id_of t = Some (i, c)
    /\ set_rows R t (map cname (value_cols t)) (map VText values)
         (id_is R c i row_id) (trows t) = inr out
    /\ n = List.length (filter (id_is R c i row_id) (trows t))
    /\ List.length values = List.length (value_cols t)
    /\ resolve R db table = inr t
    /\ resolve R db' table = inr (with_rows t (map snd out) (tseq t)).
Proof.
  intros V H. rewrite (update_visible _ _ _ _ _ _ V) in H.
  destruct (List.length values =? List.length (value_cols t))%nat eqn:L;
    cbn [negb] in H; [|discriminate H].
  apply Nat.eqb_eq in L.
  destruct (visible_some _ _ _ _ V) as (Hname & Hf & _).
  unfold DBManager.try_execute, execute in H.
  rewrite (resolve_found _ _ _ _ Hname Hf) in H.
  destruct (check_columns R t _ _ _); [discriminate H|].
  unfold resolve_id in H.
  destruct (id_of t) as [[i c]|]; [|discriminate H].
  destruct (set_rows R t (map cname (value_cols t)) (map VText values)
              (id_is R c i row_id) (trows t)) as [e|out] eqn:S;
    [discriminate H|].
  destruct (accepted_all (tcols t) [] out); [|discriminate H].
  inversion H; subst. exists i, c, out. repeat split; auto.
  - now apply resolve_found.
  - apply resolve_found; [assumption|].
    now apply find_put_table with (t := t).
Qed.

Lemma set_rows_shape R t columns values hit rows : forall out,
  set_rows R t columns values hit rows = inr out ->
  Forall2 (fun r o => fst o = hit r
                      /\ (if hit r
                          then set_row R t columns values r = inr (snd o)
                          else snd o = r))
    rows out.
Proof.
  induction rows as [|r rows IH]; simpl; intros out H.
  - inversion H. constructor.
  - destruct (hit r) eqn:Hh.
    + destruct (set_row R t columns values r) as [e|r'] eqn:S; [discriminate|].
      destruct (set_rows R t columns values hit rows) as [e|out']; [discriminate|].
      inversion H; subst. constructor; [|now apply IH].
      simpl. rewrite Hh. now split.
    + destruct (set_rows R t columns values hit rows) as [e|out']; [discriminate|].
      inversion H; subst. constructor; [|now apply IH].
      simpl. rewrite Hh. now split.
Qed.

Lemma set_row_cells R t columns values r r' :
  set_row R t columns values r = inr r' ->
  cells r'
  = map (fun cv : column * value =>
           match bound columns values (cname (fst cv)) with
           | Some v => affinity R (ctype (fst cv)) v
           | None => snd cv
           end)
      (combine (tcols t) (cells r)).
Proof.
  unfold set_row. destruct (rowid_position (tcols t)) as [i|].
  - match goal with
    | |- context [nth i ?l VNull] => destruct (nth i l VNull)
    end; intros H; inversion H; reflexivity.
  - intros H; inversion H; reflexivity.
Qed.

Lemma nth_map_combine {A} (f : A * value -> value) (l : list A) :
  forall l' i a,
    nth_error l i = Some a ->
    (forall v, f (a, v) = v) ->
    nth i (map f (combine l l')) VNull = nth i l' VNull.
Proof.
  induction l as [|x l IH]; intros l' i a H F.
  - destruct i; discriminate H.
  - destruct l' as [|v l']; simpl.
    + now destruct i.
    + destruct i as [|i]; simpl in *.
      * inversion H; subst. apply F.
      * now apply IH with (a := a).
Qed.

Lemma bound_none columns values k :
  (forall n, In n columns -> name_eqb n k = false) ->
  bound columns values k = None.
Proof.
  revert values. induction columns as [|n columns IH]; intros values H;
    simpl; [reflexivity|].
  destruct values as [|v values]; [reflexivity|].
  rewrite (H n) by now left. apply IH. intros m Hm. apply H. now right.
Qed.

Lemma bound_some columns : forall values k,
  In k columns -> List.length values = List.length columns ->
  bound columns values k <> None.
Proof.
  induction columns as [|n columns IH]; intros values k H L; [contradiction|].
  destruct values as [|v values]; [discriminate L|]. simpl.
  destruct (name_eqb n k) eqn:E; [discriminate|].
  destruct H as [->|H]; [now rewrite name_eqb_refl in E|].
  apply IH; [assumption | now inversion L].
Qed.

Lemma distinct_names_same cols a b :
  distinct_names cols = true -> In a cols -> In b cols ->
  name_eqb (cname a) (cname b) = true -> a = b.
Proof.
  induction cols as [|x cols IH]; simpl; intros D Ha Hb E; [contradiction|].
  apply andb_prop in D as [D1 D2]. apply negb_true_iff in D1.
  assert (N : forall y, In y cols -> name_eqb (cname y) (cname x) = false).
  { intros y Hy. destruct (name_eqb (cname y) (cname x)) eqn:Ey; [|reflexivity].
    rewrite <- D1. symmetry. apply existsb_exists. now exists y. }
  destruct Ha as [<-|Ha], Hb as [<-|Hb]; auto.
  - rewrite name_eqb_sym, (N b Hb) in E. discriminate.
  - rewrite (N a Ha) in E. discriminate.
Qed.

(** A column literally named [id] is not among the columns [update]
    sets, when the names of the table are distinct. *)
Lemma id_not_set t c values :
  distinct_names (tcols t) = true -> In c (tcols t) -> cname c = "id" ->
  bound (map cname (value_cols t)) values (cname c) = None.
Proof.
  intros D Hc Hn. apply bound_none. intros n Hin.
  apply in_map_iff in Hin as (v & <- & Hv).
  apply filter_In in Hv as [Hv Hne].
  destruct (name_eqb (cname v) (cname c)) eqn:E; [|reflexivity].
  rewrite (distinct_names_same _ _ _ D Hv Hc E), Hn in Hne. discriminate.
Qed.

Lemma combine_map_combine {A B} (f : A * B -> B) (l : list A) : forall l',
  combine l (map f (combine l l'))
  = map (fun p => (fst p, f p)) (combine l l').
Proof.
  induction l as [|x l IH]; intros [|y l']; simpl; try reflexivity.
  now rewrite IH.
Qed.

Lemma bound_positional_text cols (values : list string) :
  distinct_names cols = true ->
  List.length values = List.length cols ->
  Forall2 (fun c v => bound (map cname cols) (map VText values) (cname c)
                      = Some (VText v)) cols values.
Proof.
  intros D L.
  pose proof (bound_positional cols (map VText values) D) as B.
  rewrite length_map in B. specialize (B L).
  remember (map cname cols) as names eqn:En. clear En.
  remember (map VText values) as bv eqn:Eb.
  assert (G : forall vs cs ws, ws = map VText vs ->
            Forall2 (fun c v => bound names bv (cname c) = Some v) cs ws ->
            Forall2 (fun c v => bound names bv (cname c) = Some (VText v)) cs vs).
  { induction vs as [|v vs IH]; intros cs ws -> F;
      inversion F; subst; constructor; eauto. }
  now apply (G values cols bv).
Qed.

(** X5: on a table with distinct column names and a column literally
    named [id], [select] with the id after a successful [update] returns
    as many rows as [update] counted and as [select] returned before;
    each of them holds, in every column but [id], the value written to
    it, the values being bound to the columns in their order. *)
Theorem update_then_select (R : rules) (table : string) (row_id : Z)
  (values : list string) (db db' : database) (t : stored_table)
  (i : nat) (c : column) (n : nat) :
  visible R db table = Some t ->
  id_of t = Some (i, c) ->
  cname c = "id" ->
  distinct_names (tcols t) = true ->
  DBManager.update R table row_id values db = (inr n, db') ->
  exists before rows,
    DBManager.select R table (Some row_id) db = (inr before, db)
    /\ DBManager.select R table (Some row_id) db' = (inr rows, db')
    /\ List.length before = n
    /\ List.length rows = n
    /\ Forall
         (fun cells' =>
            Forall (fun p : column * value =>
                      cname (fst p) = "id"
                      \/ snd p = written R (map cname (value_cols t))
                                   (map VText values) (fst p))
              (combine (tcols t) cells'))
         rows
    /\ Forall2
         (fun col v =>
            bound (map cname (value_cols t)) (map VText values) (cname col)
            = Some (VText v))
         (value_cols t) values.
Proof.
  intros V Hid Hn D H.
  destruct (update_returned _ _ _ _ _ _ _ _ V H)
    as (i' & c' & out & Hid' & S & -> & L & Hr & Hr').
  rewrite Hid in Hid'. inversion Hid'; subst i' c'. clear Hid'.
  assert (Hc : nth_error (tcols t) i = Some c).
  { unfold id_of in Hid.
    destruct (index_of (fun c0 => name_eqb (cname c0) "id") (tcols t)) as [j|];
      [|discriminate].
    destruct (nth_error (tcols t) j) eqn:E; [|discriminate].
    inversion Hid; subst. assumption. }
  pose proof (nth_error_In _ _ Hc) as Hin.
  set (columns := map cname (value_cols t)) in *.
  set (vals := map VText values) in *.
  pose proof (id_not_set t c vals D Hin Hn) as Bn. fold columns in Bn.
  pose proof (set_rows_shape _ _ _ _ _ _ _ S) as Sh.
  assert (Keep : forall r r', set_row R t columns vals r = inr r' ->
            id_is R c i row_id r' = id_is R c i row_id r).
  { intros r r' E. unfold id_is. rewrite (set_row_cells _ _ _ _ _ _ E).
    rewrite (nth_map_combine _ _ _ _ c Hc); [reflexivity|].
    intros v. simpl. now rewrite Bn. }
  assert (Hits : filter (id_is R c i row_id) (map snd out)
                 = map snd (filter (fun o : bool * row => fst o) out)
                 /\ List.length (filter (fun o : bool * row => fst o) out)
                    = List.length (filter (id_is R c i row_id) (trows t))).
  { clear - Sh Keep. induction Sh as [|r o rows out' [F1 F2] Sh IH]; simpl;
      [split; reflexivity|].
    destruct IH as [IH1 IH2]. destruct o as [m r']. simpl in *. subst m.
    destruct (id_is R c i row_id r) eqn:E.
    - rewrite (Keep _ _ F2), E. simpl. rewrite IH1, IH2. now split.
    - subst r'. rewrite E. now split. }
  destruct Hits as [H1 H2].
  exists (map cells (filter (id_is R c i row_id) (trows t))),
         (map cells (map snd (filter (fun o : bool * row => fst o) out))).
  split; [|split; [|split; [|split; [|split]]]].
  - unfold DBManager.select, DBManager.try_execute, execute, resolve_id.
    now rewrite Hr, Hid.
  - unfold DBManager.select, DBManager.try_execute, execute, resolve_id.
    rewrite Hr', id_of_with_rows, Hid. simpl. now rewrite H1.
  - now rewrite length_map.
  - now rewrite !length_map.
  - apply Forall_forall. intros cells' Hcells.
    apply in_map_iff in Hcells as (r' & <- & Hr2).
    apply in_map_iff in Hr2 as ([m r2] & E & Ho). simpl in E. subst r2.
    apply filter_In in Ho as [Ho Hm]. simpl in Hm. subst m.
    assert (exists r, set_row R t columns vals r = inr r') as [r Er].
    { clear - Sh Ho. induction Sh as [|r o rows out' [F1 F2] Sh IH];
        [contradiction|].
      destruct Ho as [->|Ho]; [|now apply IH].
      simpl in *. rewrite <- F1 in F2. eauto. }
    rewrite (set_row_cells _ _ _ _ _ _ Er), combine_map_combine.
    apply Forall_forall. intros p Hp.
    apply in_map_iff in Hp as ([col old] & <- & Hp). simpl.
    unfold written.
    destruct (bound columns vals (cname col)) eqn:B; [now right|].
    left. destruct (String.eqb (cname col) "id") eqn:E;
      [now apply String.eqb_eq|].
    exfalso. apply in_combine_l in Hp.
    assert (In (cname col) columns).
    { unfold columns. apply in_map. unfold value_cols. apply filter_In.
      split; [assumption|]. now rewrite E. }
    refine (bound_some columns vals (cname col) _ _ B); [assumption|].
    unfold vals, columns. now rewrite !length_map.
  - apply bound_positional_text; [now apply distinct_names_filter | assumption].
Qed.

Lemma update_then_select_witness :
  exists before rows,
    DBManager.select Demo.rules "users" (Some 1%Z) users_alice
    = (inr before, users_alice)
    /\ DBManager.select Demo.rules "users" (Some 1%Z)
         (snd (DBManager.update Demo.rules "users" 1 ["Bob"; "41"] users_alice))
       = (inr rows,
          snd (DBManager.update Demo.rules "users" 1 ["Bob"; "41"] users_alice))
    /\ List.length before = 1
    /\ List.length rows = 1.
Proof.
  destruct (update_then_select Demo.rules "users" 1 ["Bob"; "41"] users_alice
              (snd (DBManager.update Demo.rules "users" 1 ["Bob"; "41"]
                      users_alice))
              _ 0 _ 1 eq_refl eq_refl eq_refl eq_refl eq_refl)
    as (before & rows & B & S & L1 & L2 & _).
  exists before, rows. repeat split; assumption.
Defined.

Example update_sample :
  DBManager.select Demo.rules "users" (Some 1%Z)
    (snd (DBManager.update Demo.rules "users" 1 ["Bob"; "41"] users_alice))
  = (inr [[VInt 1; VText "Bob"; VInt 41]],
     snd (DBManager.update Demo.rules "users" 1 ["Bob"; "41"] users_alice)).
Proof. reflexivity. Qed.

(** ** The import, from its input to its exit status and its rows *)











Example import_sample :
  let ran := Cli.import_data Demo.rules "users"
               ["Bob 41"; ""; "Carol"; "Dan 7"] users_alice in
  Cli.status ran = inr 0
  /\ Cli.stdout ran = ["✓ Imported 2 row(s), 1 error(s)"]
  /\ rows_shown (Cli.final ran) "users"
     = [[VInt 1; VText "Alice"; VInt 30]; [VInt 2; VText "Bob"; VInt 41];
        [VInt 3; VText "Dan"; VInt 7]].
Proof. vm_compute. repeat split. Qed.

(** ** Reading back a CSV record *)

Lemma doubled_cons c s :
  doubled (String c s)
  = if Ascii.eqb c Cli.dquote
    then String Cli.dquote (String Cli.dquote (doubled s))
    else String c (doubled s).
Proof. unfold doubled. simpl. now destruct (Ascii.eqb c Cli.dquote). Qed.

Lemma needs_quotes_cons c s :
  needs_quotes (String c s) = false ->
  Ascii.eqb c Cli.comma = false /\ Ascii.eqb c Cli.dquote = false
  /\ needs_quotes s = false.
Proof.
  unfold needs_quotes. simpl. intros H.
  apply orb_false_elim in H as [H1 H2].
  apply orb_false_elim in H1 as [H1 _].
  apply orb_false_elim in H1 as [H0 H1]. auto.
Qed.

Lemma read_plain s : forall cur rest,
  needs_quotes s = false ->
  read_record_aux (s ++ rest) cur false
  = read_record_aux rest (rev (list_ascii_of_string s) ++ cur) false.
Proof.
  induction s as [|c s IH]; intros cur rest H; [reflexivity|].
  destruct (needs_quotes_cons _ _ H) as (Hc & Hq & Hs).
  cbn [append read_record_aux]. rewrite Hc, Hq, (IH _ _ Hs).
  simpl. now rewrite <- app_assoc.
Qed.

Lemma read_quoted s : forall cur rest,
  field_end rest ->
  read_record_aux (doubled s ++ String Cli.dquote rest) cur true
  = read_record_aux rest (rev (list_ascii_of_string s) ++ cur) false.
Proof.
  induction s as [|c s IH]; intros cur rest H.
  - change (doubled "") with EmptyString. cbn [append read_record_aux].
    rewrite Ascii.eqb_refl. destruct rest as [|d rest]; [reflexivity|].
    simpl in H. subst d. reflexivity.
  - rewrite doubled_cons. destruct (Ascii.eqb c Cli.dquote) eqn:E.
    + apply Ascii.eqb_eq in E. subst c.
      cbn [append read_record_aux]. rewrite Ascii.eqb_refl.
      rewrite (IH _ _ H). simpl. now rewrite <- app_assoc.
    + cbn [append read_record_aux]. rewrite E, (IH _ _ H).
      simpl. now rewrite <- app_assoc.
Qed.

Lemma read_csv_value val rest :
  field_end rest ->
  read_record_aux (Cli.csv_value val ++ rest) [] false
  = read_record_aux rest (rev (list_ascii_of_string (Cli.val_str val))) false.
Proof.
  intros H. unfold Cli.csv_value. cbv zeta.
  rewrite quoting_test, replace_doubled.
  destruct (needs_quotes (Cli.val_str val)) eqn:N.
  - unfold Cli.chr. cbn [append read_record_aux].
    change (Ascii.eqb Cli.dquote Cli.comma) with false.
    rewrite Ascii.eqb_refl. cbv iota.
    rewrite string_app_assoc. cbn [append].
    rewrite (read_quoted _ _ _ H). now rewrite app_nil_r.
  - rewrite (read_plain _ _ _ N). now rewrite app_nil_r.
Qed.

Lemma read_end (s : string) :
  read_record_aux "" (rev (list_ascii_of_string s)) false = [s].
Proof.
  simpl. now rewrite rev_involutive, string_of_list_ascii_of_string.
Qed.

(** X10: a record of [format_csv], read as CSV, gives back the texts of
    its values, one field per value: a comma or a double quote inside a
    value neither splits the field nor ends it.  A record has at least
    one value. *)
Theorem csv_record_round_trip (row : list value) :
  row <> [] ->
  read_record (Py.join "," (map Cli.csv_value row)) = map Cli.val_str row.
Proof.
  unfold read_record. induction row as [|v row IH]; intros H; [contradiction|].
  destruct row as [|w row].
  - simpl. rewrite <- (string_app_nil (Cli.csv_value v)).
    rewrite (read_csv_value v "" I). apply read_end.
  - change (Py.join "," (map Cli.csv_value (v :: w :: row)))
      with (Cli.csv_value v
            ++ String Cli.comma (Py.join "," (map Cli.csv_value (w :: row))))%string.
    rewrite (read_csv_value v
               (String Cli.comma (Py.join "," (map Cli.csv_value (w :: row))))
               eq_refl).
    cbn [read_record_aux]. rewrite Ascii.eqb_refl.
    rewrite rev_involutive, string_of_list_ascii_of_string.
    cbn [map]. f_equal. apply IH. discriminate.
Qed.

Lemma csv_record_round_trip_witness :
  read_record
    (Py.join "," (map Cli.csv_value [VInt 7; VText "a,b"; VNull; VText "x"]))
  = ["7"; "a,b"; ""; "x"].
Proof.
  apply (csv_record_round_trip [VInt 7; VText "a,b"; VNull; VText "x"]).
  discriminate.
Defined.

(** ** JSON texts *)

Lemma json_body_escape_char c tail :
  json_body (Json.escape_char c ++ tail) = String c (json_body tail).
Proof. destruct c as [[] [] [] [] [] [] [] []]; reflexivity. Qed.

(** X11: the text [json.dumps] writes for a string, read as a JSON
    string, is the string again, whatever characters it holds. *)
Theorem json_string_round_trip (s : string) :
  json_loads_str (Json.dumps_str s) = s.
Proof.
  unfold Json.dumps_str. cbn [json_loads_str]. rewrite Ascii.eqb_refl.
  induction s as [|c s IH]; [reflexivity|].
  cbn [Json.escape]. rewrite string_app_assoc, json_body_escape_char.
  now rewrite IH.
Qed.

Lemma occurrences_app c (a b : string) :
  occurrences c (a ++ b) = occurrences c a + occurrences c b.
Proof.
  induction a as [|x a IH]; simpl; [reflexivity|]. rewrite IH. lia.
Qed.

Lemma escape_char_one_line c : line_feeds (Json.escape_char c) = 0.
Proof. destruct c as [[] [] [] [] [] [] [] []]; reflexivity. Qed.

Lemma escape_one_line s : line_feeds (Json.escape s) = 0.
Proof.
  unfold line_feeds. induction s as [|c s IH]; [reflexivity|].
  cbn [Json.escape]. rewrite occurrences_app, IH.
  pose proof (escape_char_one_line c) as E. unfold line_feeds in E.
  now rewrite E.
Qed.

Lemma dumps_str_one_line s : line_feeds (Json.dumps_str s) = 0.
Proof.
  unfold Json.dumps_str, line_feeds. cbn [occurrences].
  rewrite occurrences_app. fold (line_feeds (Json.escape s)).
  now rewrite escape_one_line.
Qed.

Lemma string_of_uint_one_line d :
  line_feeds (NilEmpty.string_of_uint d) = 0.
Proof. induction d; simpl; auto. Qed.

Lemma str_int_one_line z : line_feeds (Py.str_int z) = 0.
Proof.
  unfold Py.str_int, NilZero.string_of_int, NilZero.string_of_uint.
  destruct (Z.to_int z) as [d|d]; destruct d;
    try reflexivity;
    try (apply (string_of_uint_one_line (Decimal.D0 _)));
    try (apply (string_of_uint_one_line (Decimal.D1 _)));
    try (apply (string_of_uint_one_line (Decimal.D2 _)));
    try (apply (string_of_uint_one_line (Decimal.D3 _)));
    try (apply (string_of_uint_one_line (Decimal.D4 _)));
    try (apply (string_of_uint_one_line (Decimal.D5 _)));
    try (apply (string_of_uint_one_line (Decimal.D6 _)));
    try (apply (string_of_uint_one_line (Decimal.D7 _)));
    try (apply (string_of_uint_one_line (Decimal.D8 _)));
    try (apply (string_of_uint_one_line (Decimal.D9 _))).
Qed.

Lemma dumps_item_one_line kv : line_feeds (Cli.dumps_item kv) = 0.
Proof.
  unfold Cli.dumps_item, line_feeds. rewrite !occurrences_app.
  fold (line_feeds (Json.dumps_str (fst kv))).
  fold (line_feeds (Cli.dumps_value (snd kv))).
  rewrite dumps_str_one_line.
  destruct (snd kv) as [|z|s]; simpl;
    [reflexivity | apply str_int_one_line | apply dumps_str_one_line].
Qed.

Lemma join_one_line sep l :
  line_feeds sep = 0 -> Forall (fun s => line_feeds s = 0) l ->
  line_feeds (Py.join sep l) = 0.
Proof.
  unfold line_feeds. intros Hs. induction 1 as [|x l Hx Hl IH]; [reflexivity|].
  destruct l as [|y l]; [exact Hx|].
  change (Py.join sep (x :: y :: l))
    with (x ++ sep ++ Py.join sep (y :: l))%string.
  rewrite !occurrences_app, Hx, Hs, IH. reflexivity.
Qed.

Lemma dumps_dict_one_line d : line_feeds (Cli.dumps_dict d) = 0.
Proof.
  unfold Cli.dumps_dict, line_feeds. cbn [append occurrences].
  rewrite occurrences_app.
  fold (line_feeds (Py.join ", " (map Cli.dumps_item d))).
  rewrite join_one_line; [reflexivity | reflexivity|].
  apply Forall_forall. intros s Hs. apply in_map_iff in Hs as (kv & <- & _).
  apply dumps_item_one_line.
Qed.

Lemma join_lines l :
  Forall (fun s => line_feeds s = 0) l ->
  line_feeds (Py.join (Cli.chr Cli.newline) l) = pred (List.length l).
Proof.
  unfold line_feeds. induction 1 as [|x l Hx Hl IH]; [reflexivity|].
  destruct l as [|y l]; [exact Hx|].
  change (Py.join (Cli.chr Cli.newline) (x :: y :: l))
    with (x ++ Cli.chr Cli.newline
          ++ Py.join (Cli.chr Cli.newline) (y :: l))%string.
  rewrite !occurrences_app, Hx, IH. reflexivity.
Qed.

(** X12: the text of [format_jsonl] has one line per row: no line feed
    but those between the objects of two rows, whatever line feeds the
    names and the values hold. *)
Theorem format_jsonl_one_line_per_row (rows : list (list value))
  (columns : list string) :
  line_feeds (Cli.format_jsonl rows columns) = pred (List.length rows).
Proof.
  destruct rows as [|row rows]; [reflexivity|].
  unfold Cli.format_jsonl.
  rewrite (fold_left_append
             (fun row => Cli.dumps_dict (Cli.row_dict columns row))).
  cbn [app]. rewrite join_lines; [now rewrite length_map|].
  apply Forall_forall. intros s Hs. apply in_map_iff in Hs as (r & <- & _).
  apply dumps_dict_one_line.
Qed.

Example format_jsonl_sample :
  Cli.format_jsonl
    [[VInt 1; VText ("a" ++ Cli.chr Cli.newline ++ "b")]; [VInt 2; VNull]]
    ["id"; "x"]
  = ("{" ++ Json.dumps_str "id" ++ ": 1, " ++ Json.dumps_str "x" ++ ": "
     ++ Cli.chr Json.quote ++ "a" ++ Cli.chr Json.backslash ++ "nb"
     ++ Cli.chr Json.quote ++ "}" ++ Cli.chr Cli.newline
     ++ "{" ++ Json.dumps_str "id" ++ ": 2, " ++ Json.dumps_str "x"
     ++ ": null}")%string.
Proof. reflexivity. Qed.

(** ** The dictionary of a row *)

Lemma value_of_dict_set d k v k' :
  value_of k' (Cli.dict_set d k v)
  = if String.eqb k k' then Some v else value_of k' d.
Proof.
  induction d as [|[a b] d IH]; simpl; [reflexivity|].
  destruct (String.eqb a k) eqn:E; simpl.
  - apply String.eqb_eq in E. subst a. now destruct (String.eqb k k').
  - rewrite IH. destruct (String.eqb a k') eqn:E'; [|reflexivity].
    apply String.eqb_eq in E'. subst a. now rewrite String.eqb_sym, E.
Qed.

Lemma value_of_app k a b :
  value_of k (a ++ b)
  = match value_of k a with
    | Some v => Some v
    | None => value_of k b
    end.
Proof.
  induction a as [|[x y] a IH]; simpl; [reflexivity|].
  now destruct (String.eqb x k).
Qed.

Lemma value_of_fold k l : forall d,
  value_of k (fold_left (fun d cv => Cli.dict_set d (fst cv) (snd cv)) l d)
  = match value_of k (rev l) with
    | Some v => Some v
    | None => value_of k d
    end.
Proof.
  induction l as [|[a b] l IH]; intros d; [reflexivity|].
  cbn [fold_left rev fst snd]. rewrite IH, value_of_app, value_of_dict_set.
  destruct (value_of k (rev l)); [reflexivity|]. simpl.
  now destruct (String.eqb a k).
Qed.

Lemma dict_set_keys d k v :
  map fst (Cli.dict_set d k v) = map fst d
  \/ (~ In k (map fst d) /\ Cli.dict_set d k v = d ++ [(k, v)]).
Proof.
  induction d as [|[a b] d IH]; simpl.
  - right. split; [tauto | reflexivity].
  - destruct (String.eqb a k) eqn:E.
    + apply String.eqb_eq in E. subst a. now left.
    + apply String.eqb_neq in E. destruct IH as [IH|[IH1 IH2]].
      * left. simpl. now rewrite IH.
      * right. rewrite IH2. split; [|reflexivity]. intros [H|H]; tauto.
Qed.

Lemma dict_set_fresh d k v :
  ~ In k (map fst d) -> Cli.dict_set d k v = d ++ [(k, v)].
Proof.
  induction d as [|[a b] d IH]; simpl; intros H; [reflexivity|].
  destruct (String.eqb a k) eqn:E.
  - apply String.eqb_eq in E. subst a. tauto.
  - rewrite IH; [reflexivity | tauto].
Qed.

Lemma dict_keys_fold l : forall d,
  NoDup (map fst d) ->
  NoDup (map fst (fold_left (fun d cv => Cli.dict_set d (fst cv) (snd cv)) l d)).
Proof.
  induction l as [|[a b] l IH]; intros d H; [exact H|].
  cbn [fold_left fst snd]. apply IH.
  destruct (dict_set_keys d a b) as [E|[N E]].
  - now rewrite E.
  - rewrite E, map_app. simpl. apply NoDup_app; [assumption | |].
    + constructor; [tauto | constructor].
    + intros x Hx [<-|[]]. tauto.
Qed.

Lemma dict_fold_fresh l : forall d,
  NoDup (map fst d ++ map fst l) ->
  fold_left (fun d cv => Cli.dict_set d (fst cv) (snd cv)) l d = d ++ l.
Proof.
  induction l as [|[a b] l IH]; intros d H; [now rewrite app_nil_r|].
  cbn [fold_left fst snd]. simpl in H.
  rewrite dict_set_fresh.
  - rewrite IH; [now rewrite <- app_assoc|].
    rewrite map_app, <- app_assoc. exact H.
  - apply NoDup_remove_2 in H. intros Hin. apply H, in_or_app. now left.
Qed.

Lemma distinct_NoDup l : distinct l = true -> NoDup l.
Proof.
  induction l as [|x l IH]; simpl; intros H; constructor.
  - apply andb_prop in H as [H _]. apply negb_true_iff in H.
    intros Hin.
    assert (E : existsb (String.eqb x) l = true).
    { apply existsb_exists. exists x.
      split; [assumption | apply String.eqb_refl]. }
    congruence.
  - apply IH. now apply andb_prop in H as [_ H].
Qed.

Lemma NoDup_combine_fst {B} (l : list string) : forall l' : list B,
  NoDup l -> NoDup (map fst (combine l l')).
Proof.
  induction l as [|x l IH]; intros l' H; [constructor|].
  destruct l' as [|y l']; [constructor|]. simpl.
  inversion H; subst. constructor; [|now apply IH].
  intros Hin. apply in_map_iff in Hin as ([a b] & E & Hin). simpl in E.
  subst a. now apply in_combine_l in Hin.
Qed.

(** X13: the dictionary built for a row never holds a key twice; under
    a name that several columns bear it holds the value of the last of
    them; and when the names are distinct it is the list of the names
    with their values, in the order of the columns. *)
Theorem row_dict_last_value_wins (columns : list string) (row : list value) :
  NoDup (map fst (Cli.row_dict columns row))
  /\ (forall k, value_of k (Cli.row_dict columns row)
                = value_of k (rev (combine columns row)))
  /\ (distinct columns = true ->
      Cli.row_dict columns row = combine columns row).
Proof.
  unfold Cli.row_dict. split; [|split].
  - apply dict_keys_fold. constructor.
  - intros k. rewrite value_of_fold. simpl.
    now destruct (value_of k (rev (combine columns row))).
  - intros D. apply (dict_fold_fresh (combine columns row) []). simpl.
    apply NoDup_combine_fst. now apply distinct_NoDup.
Qed.

Lemma row_dict_last_value_wins_witness :
  Cli.row_dict ["id"; "name"] [VInt 1; VText "Alice"]
  = [("id", VInt 1); ("name", VText "Alice")].
Proof.
  destruct (row_dict_last_value_wins ["id"; "name"] [VInt 1; VText "Alice"])
    as (_ & _ & H).
  apply H. reflexivity.
Defined.

Example row_dict_repeated_name :
  Cli.row_dict ["a"; "b"; "a"] [VInt 1; VInt 2; VInt 3]
  = [("a", VInt 3); ("b", VInt 2)].
Proof. reflexivity. Qed.

(** ** The table printed by default *)








(** ** The branches of [main] that update a row and drop a table *)







(** ** The two positional commands *)

(** X17: a first argument [databases] lists the databases and a second
    argument [tables] never reaches a table: whatever else the command
    line holds, no branch of [main] that works on a table is run, so
    that a table of that name cannot be read or written. *)
Theorem positional_commands_shadow_names (a : Cli.args) :
  (Cli.database a = Some "databases" -> Cli.dispatch a = Cli.ListDatabases)
  /\ (Cli.table a = Some "tables" -> on_table (Cli.dispatch a) = false).
Proof.
  unfold Cli.dispatch, Cli.positional. split; intros H; rewrite H; simpl.
  - now rewrite orb_true_r.
  - rewrite orb_true_r.
    repeat match goal with
           | |- context [if ?b then _ else _] => destruct b; try reflexivity
           end.
Qed.

Lemma positional_commands_shadow_names_witness :
  on_table
    (Cli.dispatch
       {| Cli.database := Some "mydb"; Cli.table := Some "tables";
          Cli.create := Some ["x"]; Cli.read := None; Cli.update := None;
          Cli.delete := None; Cli.import_flag := false; Cli.databases := false;
          Cli.list_flag := false; Cli.schema := None; Cli.tables := false;
          Cli.info_flag := false; Cli.drop_table_flag := false;
          Cli.path := false; Cli.drop_database := false |}) = false.
Proof.
  apply positional_commands_shadow_names. reflexivity.
Defined.

(** ** A new table, and the rows an update passes by *)

(** X18: when [create_table] returns, it returns [True]; and when the
    catalogue held no table of that name, the new table is its last
    one, [table_info] reports it, it has the columns the engine reads
    from the column definitions of the schema, and [select] finds it
    empty. *)
Theorem create_table_makes_an_empty_table (R : rules) (table : string)
  (schema : list string) (db db1 : database) (b : bool) :
  DBManager.create_table R table schema db = (inr b, db1) ->
  b = true
  /\ (find_table db table = None ->
      exists t columns,
        db1 = db ++ [t]
        /\ visible R db1 table = Some t
        /\ schema_columns schema = inr columns
        /\ read_columns R columns = Some (tcols t)
        /\ trows t = []
        /\ DBManager.select R table None db1 = (inr [], db1)).
Proof.
  unfold DBManager.create_table, DBManager.raise.
  destruct (schema_columns schema) as [e|columns]; [discriminate|].
  unfold DBManager.try_execute, execute.
  destruct (is_name R table) eqn:N; cbn [negb]; [|discriminate].
  destruct (find_table db table) as [t0|] eqn:F.
  - intros H. inversion H. split; [reflexivity | discriminate].
  - destruct (read_columns R columns) as [[|c cols]|] eqn:Rd; try discriminate.
    destruct (distinct_names (c :: cols)); cbn [negb]; [|discriminate].
    destruct (1 <? List.length (filter (fun c0 => is_primary (ckey c0))
                                  (c :: cols)))%nat; [discriminate|].
    intros H. inversion H. split; [reflexivity|]. intros _.
    set (t := {| tname := table; tcols := c :: cols; trows := [];
                 tseq := 0 |}).
    assert (Ft : find_table (db ++ [t]) table = Some t).
    { rewrite find_table_app, F. simpl. now rewrite name_eqb_refl. }
    exists t, columns. split; [reflexivity|]. split.
    { unfold visible. now rewrite N, Ft. }
    split; [reflexivity|]. split; [exact Rd|]. split; [reflexivity|].
    apply (select_all_shown R (db ++ [t]) table t).
    now apply resolve_found.
Qed.

Lemma create_table_makes_an_empty_table_witness :
  exists t,
    users_empty = [t]
    /\ visible Demo.rules users_empty "users" = Some t
    /\ DBManager.select Demo.rules "users" None users_empty
       = (inr [], users_empty).
Proof.
  destruct (create_table_makes_an_empty_table Demo.rules "users"
              ["name:TEXT"; "age:INTEGER"] [] users_empty true eq_refl)
    as (_ & H).
  destruct (H eq_refl) as (t & columns & E & V & _ & _ & _ & S).
  exists t. split; [exact E|]. split; [exact V | exact S].
Defined.



(** ** The lines of the indented JSON *)

Lemma join_line_feeds sep l :
  line_feeds (Py.join sep l)
  = list_sum (map line_feeds l) + pred (List.length l) * line_feeds sep.
Proof.
  unfold line_feeds. induction l as [|x l IH]; [reflexivity|].
  destruct l as [|y l]; [simpl; lia|].
  change (Py.join sep (x :: y :: l))
    with (x ++ sep ++ Py.join sep (y :: l))%string.
  rewrite !occurrences_app, IH.
  cbn [map List.length pred Nat.mul]. unfold list_sum. cbn [fold_right]. lia.
Qed.

Lemma list_sum_constant {A} (f : A -> nat) (l : list A) k :
  Forall (fun x => f x = k) l -> list_sum (map f l) = List.length l * k.
Proof.
  induction 1 as [|x l Hx Hl IH]; simpl; [reflexivity|]. rewrite Hx, IH. lia.
Qed.

Lemma dumps_dict_indented_lines d :
  d <> [] ->
  line_feeds (Cli.dumps_dict_indented d) = List.length d + 1.
Proof.
  intros H. destruct d as [|kv d]; [contradiction|].
  unfold Cli.dumps_dict_indented, line_feeds.
  rewrite !occurrences_app.
  fold (line_feeds (Py.join ("," ++ Cli.chr Cli.newline ++ "    ")
                      (map Cli.dumps_item (kv :: d)))).
  rewrite join_line_feeds.
  rewrite (list_sum_constant line_feeds (map Cli.dumps_item (kv :: d)) 0).
  - rewrite !length_map.
    change (line_feeds ("," ++ Cli.chr Cli.newline ++ "    ")) with 1.
    simpl. lia.
  - apply Forall_forall. intros s Hs. apply in_map_iff in Hs as (x & <- & _).
    apply dumps_item_one_line.
Qed.

Lemma row_dict_distinct columns row :
  distinct columns = true -> Cli.row_dict columns row = combine columns row.
Proof.
  intros D. apply (dict_fold_fresh (combine columns row) []). simpl.
  apply NoDup_combine_fst. now apply distinct_NoDup.
Qed.

(** X20: for distinct names and rows with a value per name,
    [format_json] writes each value on a line of its own between the
    lines of the braces of its row and the two brackets: with [n] rows
    of [k] values the text has [n * (k + 2) + 1] line feeds, whatever
    line feeds the values hold. *)
Theorem format_json_one_line_per_value (rows : list (list value))
  (columns : list string) :
  rows <> [] -> columns <> [] -> distinct columns = true ->
  Forall (fun row => List.length row = List.length columns) rows ->
  line_feeds (Cli.format_json rows columns)
  = List.length rows * (List.length columns + 2) + 1.
Proof.
  intros Hr Hc D L. destruct rows as [|row rows]; [contradiction|].
  unfold Cli.format_json.
  rewrite (fold_left_append (fun row => Cli.row_dict columns row)).
  cbn [app]. unfold line_feeds. rewrite !occurrences_app.
  fold (line_feeds (Py.join ("," ++ Cli.chr Cli.newline ++ "  ")
                      (map Cli.dumps_dict_indented
                         (map (fun row0 => Cli.row_dict columns row0)
                            (row :: rows))))).
  rewrite join_line_feeds.
  rewrite (list_sum_constant line_feeds _ (List.length columns + 1)).
  - rewrite !length_map.
    change (line_feeds ("," ++ Cli.chr Cli.newline ++ "  ")) with 1.
    simpl. lia.
  - apply Forall_forall. intros s Hs.
    apply in_map_iff in Hs as (d & <- & Hd).
    apply in_map_iff in Hd as (r & <- & Hin).
    rewrite Forall_forall in L. specialize (L r Hin).
    rewrite (row_dict_distinct _ _ D).
    rewrite dumps_dict_indented_lines.
    + rewrite length_combine, L. lia.
    + destruct columns as [|x columns]; [contradiction|].
      destruct r as [|v r]; [discriminate L | discriminate].
Qed.

Lemma format_json_one_line_per_value_witness :
  line_feeds
    (Cli.format_json
       [[VInt 1; VText ("a" ++ Cli.chr Cli.newline ++ "b")]; [VInt 2; VNull]]
       ["id"; "x"]) = 9.
Proof.
  apply (format_json_one_line_per_value
           [[VInt 1; VText ("a" ++ Cli.chr Cli.newline ++ "b")]; [VInt 2; VNull]]
           ["id"; "x"]).
  - discriminate.
  - discriminate.
  - reflexivity.
  - repeat constructor.
Defined.

Example format_json_sample :
  Cli.format_json [[VInt 1; VNull]] ["id"; "x"]
  = ("[" ++ Cli.chr Cli.newline
     ++ "  {" ++ Cli.chr Cli.newline
     ++ "    " ++ Json.dumps_str "id" ++ ": 1," ++ Cli.chr Cli.newline
     ++ "    " ++ Json.dumps_str "x" ++ ": null" ++ Cli.chr Cli.newline
     ++ "  }" ++ Cli.chr Cli.newline ++ "]")%string.
Proof. reflexivity. Qed.
